(** * react-spabase-example: the image generation and storage pipeline

    A shallow embedding of [src/utils/file.ts] (the file name sanitizer)
    and of the three handlers of [src/App.tsx] ([fetchImages],
    [handleGenerateImage], [handleSaveImage]), with the properties of the
    specification stated and settled against them.

    JavaScript strings are sequences of 16-bit code units; a string is a
    [list N] of code units here, so that prompts outside ASCII are inputs
    like any other. *)

From Stdlib Require Import NArith String Ascii Lia Bool DecimalString.
From stdpp Require Import base list.

Set Warnings "-register-all".

Local Open Scope N_scope.

(** ** JavaScript strings *)

Abbreviation jsstring := (list N).

(** The code units of an ASCII literal of the source. *)
Definition js (s : string) : jsstring :=
  map N_of_ascii (list_ascii_of_string s).

Definition underscore : N := 95.

Definition is_us (c : N) : bool := c =? underscore.
Definition is_digit (c : N) : bool := (48 <=? c) && (c <=? 57).
Definition is_upper (c : N) : bool := (65 <=? c) && (c <=? 90).
Definition is_lower (c : N) : bool := (97 <=? c) && (c <=? 122).

(** The class [[a-z0-9]] under the [i] flag (no [u] flag): a code unit
    matches when its canonical form is that of a member of the class, and
    canonicalisation never maps a code unit of 128 or more to one below
    128, so the class is exactly the ASCII letters and digits. *)
Definition is_alnum_i (c : N) : bool := is_digit c || is_upper c || is_lower c.

(** The class [\w]. *)
Definition is_word (c : N) : bool := is_alnum_i c || is_us c.

(** ** src/utils/file.ts *)

Module FileUtil.

(** [.replace(/[^a-z0-9]/gi, '_')]: every code unit outside the class
    becomes an underscore. *)
Definition replace_non_alnum (s : jsstring) : jsstring :=
  map (fun c => if is_alnum_i c then c else underscore) s.

(** [.replace(/_+/g, '_')]: the scanner copies code units; at the first
    underscore of a run it emits one underscore, and it drops the rest of
    the run ([in_run] says the previous code unit belonged to a run). *)
Fixpoint replace_underscore_runs_from (in_run : bool) (s : jsstring) : jsstring :=
  match s with
  | [] => []
  | c :: t =>
      if is_us c
      then if in_run then replace_underscore_runs_from true t
           else underscore :: replace_underscore_runs_from true t
      else c :: replace_underscore_runs_from false t
  end.

Definition replace_underscore_runs (s : jsstring) : jsstring :=
  replace_underscore_runs_from false s.

(** [.replace(/^_|_$/g, '')]: without the [m] flag [^] holds at index 0
    only and [$] at the end of the string only, so an underscore is
    deleted when it is the first or the last code unit. *)
Fixpoint replace_edge_underscores_from (at_start : bool) (s : jsstring) : jsstring :=
  match s with
  | [] => []
  | c :: t =>
      if is_us c && (at_start || match t with [] => true | _ => false end)
      then replace_edge_underscores_from false t
      else c :: replace_edge_underscores_from false t
  end.

Definition replace_edge_underscores (s : jsstring) : jsstring :=
  replace_edge_underscores_from true s.

(** [.toLowerCase()] on code units below 128: the letters [A-Z] move to
    [a-z]. The sanitizer applies it to a string of ASCII letters, digits
    and underscores only (lemma [before_toLowerCase_is_ascii]), where
    this is all the method does; other code units are left as they are. *)
Definition to_lower_unit (c : N) : N := if is_upper c then c + 32 else c.

Definition toLowerCase (s : jsstring) : jsstring := map to_lower_unit s.

(** [.slice(0, 50)]. *)
Definition slice_0_50 (s : jsstring) : jsstring := take 50 s.

(** The string the chain holds before [.slice(0, 50)]. *)
Definition normalized (name : jsstring) : jsstring :=
  toLowerCase
    (replace_edge_underscores
       (replace_underscore_runs
          (replace_non_alnum name))).

Definition sanitizeFileName (name : jsstring) : jsstring :=
  slice_0_50 (normalized name).

End FileUtil.

Import FileUtil.

(** ** The key pattern of the specification *)

(** The class [[a-z0-9]] (no flag). *)
Definition is_low_alnum (c : N) : bool := is_digit c || is_lower c.

(** [[a-z0-9]+]. *)
Definition segment (g : jsstring) : Prop :=
  g <> [] /\ Forall (fun c => is_low_alnum c = true) g.

(** [^[a-z0-9]+(_[a-z0-9]+)*$], as the language of the expression: a
    segment followed by any number of underscore-led segments. *)
Definition key_pattern (s : jsstring) : Prop :=
  exists g gs, segment g /\ Forall segment gs /\
               s = g ++ concat (map (cons underscore) gs).

(** A matcher for the same expression. [key_rest] runs after a letter or
    digit has been read. *)
Fixpoint key_rest (s : jsstring) : bool :=
  match s with
  | [] => true
  | c :: t =>
      if is_low_alnum c then key_rest t
      else if is_us c
           then match t with
                | d :: _ => is_low_alnum d && key_rest t
                | [] => false
                end
           else false
  end.

Definition key_patternb (s : jsstring) : bool :=
  match s with
  | c :: t => is_low_alnum c && key_rest t
  | [] => false
  end.

(** The separators of a key, one property at a time. *)
Definition starts_with_us (s : jsstring) : bool :=
  match s with c :: _ => is_us c | [] => false end.

Definition ends_with_us (s : jsstring) : bool :=
  match last s with Some c => is_us c | None => false end.

Fixpoint has_double_us (s : jsstring) : bool :=
  match s with
  | c :: t => (is_us c && starts_with_us t) || has_double_us t
  | [] => false
  end.

Definition all_key_units (s : jsstring) : bool :=
  forallb (fun c => is_low_alnum c || is_us c) s.

(** ** JavaScript values and exceptions *)

Module JSValue.

(** What [response.json()] can produce, and [undefined] for what a
    property read can. A number carries its decimal rendering, which is all
    a template literal asks of it. *)
Inductive jsval : Type :=
| VUndefined
| VNull
| VBool (b : bool)
| VNum (rendering : jsstring)
| VStr (s : jsstring)
| VArr (elems : list jsval)
| VObj (fields : list (jsstring * jsval)).

Inductive exn : Type :=
| TypeError
| SyntaxError
| InvalidCharacterError
| NetworkFailure
| JsError (message : jsstring).

Inductive Result (A : Type) : Type :=
| Returned (a : A)
| Thrown (e : exn).

Arguments Returned {A} a.
Arguments Thrown {A} e.

Fixpoint jsstring_eqb (a b : jsstring) : bool :=
  match a, b with
  | [], [] => true
  | c :: a', d :: b' => (c =? d) && jsstring_eqb a' b'
  | _, _ => false
  end.

Fixpoint lookup_field (k : jsstring) (fields : list (jsstring * jsval)) : jsval :=
  match fields with
  | [] => VUndefined
  | (k', v) :: rest => if jsstring_eqb k k' then v else lookup_field k rest
  end.

(** [v.name] for a property name that no prototype defines (the source
    reads [artifacts] and [base64]): reading from [undefined] or [null]
    throws, an object answers with its own property, every other value
    with [undefined]. *)
Definition get_named (v : jsval) (name : jsstring) : Result jsval :=
  match v with
  | VUndefined | VNull => Thrown TypeError
  | VObj fields => Returned (lookup_field name fields)
  | _ => Returned VUndefined
  end.

(** [v[0]]. *)
Definition get_index0 (v : jsval) : Result jsval :=
  match v with
  | VUndefined | VNull => Thrown TypeError
  | VArr elems => Returned (match elems with e :: _ => e | [] => VUndefined end)
  | VStr s => Returned (match s with c :: _ => VStr [c] | [] => VUndefined end)
  | VObj fields => Returned (lookup_field (js "0") fields)
  | _ => Returned VUndefined
  end.

(** Does the object have an own property of that name? *)
Fixpoint has_field (k : jsstring) (fields : list (jsstring * jsval)) : bool :=
  match fields with
  | [] => false
  | (k', _) :: rest => jsstring_eqb k k' || has_field k rest
  end.

(** The conversion a template literal applies to an interpolated value.
    An array renders as its elements joined by commas, [undefined] and
    [null] elements as nothing, every other element by this conversion.
    An object renders as [[object Object]] through the [toString] it
    inherits; when it has an own property [toString], which in a parsed
    JSON body is never a function, no method gives a primitive and the
    conversion throws a [TypeError]. *)
Fixpoint ToString (v : jsval) : Result jsstring :=
  match v with
  | VUndefined => Returned (js "undefined")
  | VNull => Returned (js "null")
  | VBool b => Returned (if b then js "true" else js "false")
  | VNum r => Returned r
  | VStr s => Returned s
  | VArr elems =>
      (fix join (first : bool) (l : list jsval) : Result jsstring :=
         match l with
         | [] => Returned []
         | e :: t =>
             match match e with
                   | VUndefined | VNull => Returned []
                   | _ => ToString e
                   end
             with
             | Thrown x => Thrown x
             | Returned s =>
                 match join false t with
                 | Thrown x => Thrown x
                 | Returned r =>
                     Returned ((if first then [] else js ",") ++ s ++ r)
                 end
             end
         end) true elems
  | VObj fields =>
      if has_field (js "toString") fields then Thrown TypeError
      else Returned (js "[object Object]")
  end.

End JSValue.

Import JSValue.

(** ** The platform's [atob] *)

Module Base64.

Definition is_ascii_whitespace (c : N) : bool :=
  (c =? 9) || (c =? 10) || (c =? 12) || (c =? 13) || (c =? 32).

Definition base64_index (c : N) : option N :=
  if is_upper c then Some (c - 65)
  else if is_lower c then Some (c - 97 + 26)
  else if is_digit c then Some (c - 48 + 52)
  else if c =? 43 then Some 62
  else if c =? 47 then Some 63
  else None.

(** When the length is a multiple of four, one or two [=] at the end
    are removed. *)
Definition strip_padding (s : jsstring) : jsstring :=
  if (N.of_nat (length s) mod 4 =? 0)
  then match rev s with
       | 61 :: 61 :: r => rev r
       | 61 :: r => rev r
       | _ => s
       end
  else s.

(** Four sextets make three bytes; two left over make one byte and three
    make two, the spare low bits dropped. *)
Fixpoint decode_sextets (l : list N) : list N :=
  match l with
  | a :: b :: c :: d :: t =>
      let n := a * 262144 + b * 4096 + c * 64 + d in
      (n / 65536) :: ((n / 256) mod 256) :: (n mod 256) :: decode_sextets t
  | [a; b; c] =>
      let n := (a * 4096 + b * 64 + c) / 4 in
      [n / 256; n mod 256]
  | [a; b] => [(a * 64 + b) / 16]
  | _ => []
  end.

(** [atob]: the forgiving base64 decoding of the HTML standard. The
    result is a string with one code unit per byte; data that is not
    base64 throws [InvalidCharacterError]. *)
Definition atob (data : jsstring) : Result jsstring :=
  let d := strip_padding (filter (fun c => is_ascii_whitespace c = false) data) in
  if (N.of_nat (length d) mod 4 =? 1) then Thrown InvalidCharacterError
  else match mapM base64_index d with
       | Some sextets => Returned (decode_sextets sextets)
       | None => Thrown InvalidCharacterError
       end.

End Base64.

Import Base64.

(** ** src/App.tsx *)

Module App.

(** *** State and effects *)

(** The four [useState] cells of the component. *)
Record AppState : Type := mkAppState {
  generatedImage : option jsstring;
  isLoading : bool;
  images : list jsstring;
  prompt : jsstring
}.

(** What a handler does that can be seen from outside, in the order it
    happens: console output, requests to the two services, and calls of
    the state setters. *)
Inductive Effect : Type :=
| ConsoleError (label : jsstring)
| ConsoleLog (message : jsstring)
| StorageList (bucket : jsstring)
| CreateSignedUrl (bucket name : jsstring) (ttl : N)
| Upload (bucket key : jsstring) (bytes : list N) (contentType : jsstring)
| FetchPost (url text_prompt : jsstring)
| SetIsLoading (b : bool)
| SetGeneratedImage (image : jsstring)
| SetImages (urls : list jsstring).

Record World : Type := mkWorld {
  app : AppState;
  trace : list Effect
}.

(** A handler is a computation over the world that returns or throws;
    what it did before a throw stays done. *)
Definition M (A : Type) : Type := World -> Result A * World.

Definition ret {A} (a : A) : M A := fun w => (Returned a, w).

Definition throw {A} (e : exn) : M A := fun w => (Thrown e, w).

Definition bind {A B} (k : A -> M B) (m : M A) : M B :=
  fun w =>
    match m w with
    | (Returned a, w') => k a w'
    | (Thrown e, w') => (Thrown e, w')
    end.

#[export] Instance M_ret : MRet M := @ret.
#[export] Instance M_bind : MBind M := @bind.

Definition lift {A} (r : Result A) : M A := fun w => (r, w).

Definition emit (e : Effect) : M unit :=
  fun w => (Returned tt, mkWorld (app w) (trace w ++ [e])).

Definition read_state : M AppState := fun w => (Returned (app w), w).

Definition update (f : AppState -> AppState) : M unit :=
  fun w => (Returned tt, mkWorld (f (app w)) (trace w)).

Definition setIsLoading (b : bool) : M unit :=
  emit (SetIsLoading b) ;;
  update (fun st => mkAppState (generatedImage st) b (images st) (prompt st)).

Definition setGeneratedImage (image : jsstring) : M unit :=
  emit (SetGeneratedImage image) ;;
  update (fun st => mkAppState (Some image) (isLoading st) (images st) (prompt st)).

Definition setImages (urls : list jsstring) : M unit :=
  emit (SetImages urls) ;;
  update (fun st => mkAppState (generatedImage st) (isLoading st) urls (prompt st)).

Definition console_error (label : jsstring) : M unit := emit (ConsoleError label).
Definition console_log (message : jsstring) : M unit := emit (ConsoleLog message).

(** *** What the services answer *)

Inductive StorageError : Type := storage_error (message : jsstring).

Record FileObject : Type := mkFileObject { name : jsstring }.

(** [{ data, error }] of [list()]. *)
Record ListResponse : Type := mkListResponse {
  list_data : option (list FileObject);
  list_error : option StorageError
}.

Record SignedUrlData : Type := mkSignedUrlData { signedUrl : jsstring }.

(** [{ data, error }] of [createSignedUrl(name, 60)]. *)
Record SignedUrlResponse : Type := mkSignedUrlResponse {
  signed_data : option SignedUrlData;
  signed_error : option StorageError
}.

(** [{ error }] of [upload(...)]. *)
Record UploadResponse : Type := mkUploadResponse {
  upload_error : option StorageError
}.

(** A [Response] of [fetch]: its [ok] flag and what [json()] gives,
    [None] when the body is not JSON text. *)
Record Response : Type := mkResponse {
  ok : bool;
  json : option jsval
}.

Inductive FetchOutcome : Type :=
| FetchRejected
| FetchResolved (response : Response).

Definition bucket : jsstring := js "generate-image".
Definition engineId : jsstring := js "stable-diffusion-v1-6".
Definition apiHost : jsstring := js "https://api.stability.ai".
Definition placeholder : jsstring := js ".emptyFolderPlaceholder".
Definition data_uri_png : jsstring := js "data:image/png;base64,".

(** *** fetchImages *)

Definition is_placeholder (image : FileObject) : bool :=
  jsstring_eqb (name image) placeholder.

(** The callback of [data.map] up to its [await]: for the placeholder it
    returns the empty string at once, for any other name it sends the
    request and its promise stays pending. *)
Definition start_task (image : FileObject) : M (option jsstring) :=
  if is_placeholder image then mret (Some [])
  else emit (CreateSignedUrl bucket (name image) 60) ;; mret None.

(** [data.map(...)] calls the callback on every element, in order; the
    result is one promise per element, [None] while pending. *)
Fixpoint start_all (data : list FileObject) : M (list (option jsstring)) :=
  match data with
  | [] => mret []
  | image :: rest =>
      slot ← start_task image;
      slots ← start_all rest;
      mret (slot :: slots)
  end.

(** The callback after its [await], with the answer in hand. *)
Definition finish_task (answer : SignedUrlResponse) : M jsstring :=
  match signed_error answer with
  | Some _ => console_error (js "Error creating signed URL:") ;; mret []
  | None =>
      mret (match signed_data answer with
            | Some d => signedUrl d
            | None => []
            end)
  end.

(** The answer to the request of element [i] arrives: its promise is
    fulfilled, and [Promise.all] stores the value at index [i]. An index
    with no pending request changes nothing. *)
Definition complete (sign : nat -> jsstring -> SignedUrlResponse)
    (data : list FileObject) (slots : list (option jsstring)) (i : nat)
  : M (list (option jsstring)) :=
  match slots !! i, data !! i with
  | Some None, Some image =>
      url ← finish_task (sign i (name image));
      mret (<[i := Some url]> slots)
  | _, _ => mret slots
  end.

Fixpoint complete_all (sign : nat -> jsstring -> SignedUrlResponse)
    (data : list FileObject) (slots : list (option jsstring))
    (arrivals : list nat) : M (list (option jsstring)) :=
  match arrivals with
  | [] => mret slots
  | i :: rest =>
      slots' ← complete sign data slots i;
      complete_all sign data slots' rest
  end.

(** [Promise.all] is fulfilled, with the values in index order, once no
    promise is pending. *)
Fixpoint settled (slots : list (option jsstring)) : option (list jsstring) :=
  match slots with
  | [] => Some []
  | None :: _ => None
  | Some v :: rest =>
      match settled rest with
      | Some vs => Some (v :: vs)
      | None => None
      end
  end.

(** [fetchImages], as far as it has run once the answers of [arrivals]
    have come in, in that order: [listing] is what [list()] answers and
    [sign i n] what [createSignedUrl(n, 60)] answers to element [i]. *)
Definition fetchImages (listing : ListResponse)
    (sign : nat -> jsstring -> SignedUrlResponse) (arrivals : list nat) : M unit :=
  emit (StorageList bucket) ;;
  match list_error listing with
  | Some _ => console_error (js "Error fetching images:")
  | None =>
      match list_data listing with
      | None => mret tt
      | Some data =>
          slots ← start_all data;
          slots' ← complete_all sign data slots arrivals;
          match settled slots' with
          | Some imageUrls => setImages imageUrls
          | None => mret tt
          end
      end
  end.

(** *** handleGenerateImage *)

Definition generation_url : jsstring :=
  apiHost ++ js "/v1/generation/" ++ engineId ++ js "/text-to-image".

Definition fetch (outcome : FetchOutcome) (url text_prompt : jsstring) : M Response :=
  emit (FetchPost url text_prompt) ;;
  match outcome with
  | FetchRejected => throw NetworkFailure
  | FetchResolved response => mret response
  end.

Definition response_json (response : Response) : M jsval :=
  match json response with
  | Some v => mret v
  | None => throw SyntaxError
  end.

(** [response.text()] is a promise, so the message interpolates
    [[object Promise]]. *)
Definition non_200_message : jsstring := js "Non-200 response: [object Promise]".

Definition handleGenerateImage (outcome : FetchOutcome) : M unit :=
  st ← read_state;
  setIsLoading true ;;
  response ← fetch outcome generation_url (prompt st);
  if negb (ok response)
  then setIsLoading false ;; throw (JsError non_200_message)
  else
    responseJSON ← response_json response;
    artifacts ← lift (get_named responseJSON (js "artifacts"));
    first ← lift (get_index0 artifacts);
    base64Image ← lift (get_named first (js "base64"));
    rendered ← lift (ToString base64Image);
    setGeneratedImage (data_uri_png ++ rendered) ;;
    setIsLoading false.

(** *** handleSaveImage *)

Fixpoint strip_prefix (p s : jsstring) : option jsstring :=
  match p, s with
  | [], _ => Some s
  | c :: p', d :: s' => if c =? d then strip_prefix p' s' else None
  | _ :: _, [] => None
  end.

Definition starts_with_word (s : jsstring) : bool :=
  match s with c :: _ => is_word c | [] => false end.

Fixpoint drop_word (s : jsstring) : jsstring :=
  match s with
  | c :: t => if is_word c then drop_word t else s
  | [] => []
  end.

(** [.replace(/^data:image\/\w+;base64,/, ...)] with the empty string
    as replacement: the match is at index 0 or nowhere; [\w+] takes the
    whole run of word characters, since the [;] that has to follow is not
    one. *)
Definition strip_data_uri (s : jsstring) : jsstring :=
  match strip_prefix (js "data:image/") s with
  | Some after =>
      if starts_with_word after
      then match strip_prefix (js ";base64,") (drop_word after) with
           | Some payload => payload
           | None => s
           end
      else s
  | None => s
  end.

(** Lines 111 to 114: the prefix is cut off, [atob] decodes, and
    [Uint8Array.from(..., c => c.charCodeAt(0))] stores every code unit
    as a byte. *)
Definition decode_image (image : jsstring) : Result (list N) :=
  let base64Data := strip_data_uri image in
  match atob base64Data with
  | Returned binary => Returned (map (fun c => c mod 256) binary)
  | Thrown e => Thrown e
  end.

Definition handleSaveImage (answer : UploadResponse) : M unit :=
  st ← read_state;
  match generatedImage st with
  | None | Some [] => mret tt  (* [!generatedImage]: null and the empty string *)
  | Some image =>
      let fileName := sanitizeFileName (prompt st) in
      binaryData ← lift (decode_image image);
      emit (Upload bucket fileName binaryData (js "image/png")) ;;
      match upload_error answer with
      | Some _ => console_error (js "Error uploading image:")
      | None => console_log (js "Image uploaded successfully")
      end
  end.

(** A handler run from a state, with an empty trace. *)
Definition run {A} (m : M A) (st : AppState) : Result A * World :=
  m (mkWorld st []).

End App.

Import App.

(** ** What the statements below speak of *)

(** The value the callback of [data.map] returns for element [i]. *)
Definition entry_url (sign : nat -> jsstring -> SignedUrlResponse)
    (i : nat) (image : FileObject) : jsstring :=
  if is_placeholder image then []
  else match signed_error (sign i (name image)) with
       | Some _ => []
       | None =>
           match signed_data (sign i (name image)) with
           | Some d => signedUrl d
           | None => []
           end
       end.

Definition gallery_urls (sign : nat -> jsstring -> SignedUrlResponse)
    (data : list FileObject) : list jsstring :=
  imap (entry_url sign) data.

(** Has the request of element [i] been answered, or was none sent? *)
Definition answered (arrivals : list nat) (i : nat) (image : FileObject) : bool :=
  is_placeholder image || existsb (Nat.eqb i) arrivals.

Definition all_answered (data : list FileObject) (arrivals : list nat) : bool :=
  forallb id (imap (answered arrivals) data).

(** The promises of [Promise.all] once the requests of [seen] have been
    answered. *)
Definition slots_of (sign : nat -> jsstring -> SignedUrlResponse)
    (data : list FileObject) (seen : list nat) : list (option jsstring) :=
  imap (fun i image =>
          if answered seen i image then Some (entry_url sign i image) else None)
       data.

(** The requests [data.map] sends, in order. *)
Definition requests (data : list FileObject) : list Effect :=
  flat_map (fun image =>
              if is_placeholder image then []
              else [CreateSignedUrl bucket (name image) 60]) data.

(** What the console shows when the answer to element [i] arrives. *)
Definition completion_log (sign : nat -> jsstring -> SignedUrlResponse)
    (data : list FileObject) (seen : list nat) (i : nat) : list Effect :=
  match data !! i with
  | Some image =>
      if answered seen i image then []
      else match signed_error (sign i (name image)) with
           | Some _ => [ConsoleError (js "Error creating signed URL:")]
           | None => []
           end
  | None => []
  end.

Fixpoint completion_logs (sign : nat -> jsstring -> SignedUrlResponse)
    (data : list FileObject) (seen arrivals : list nat) : list Effect :=
  match arrivals with
  | [] => []
  | i :: rest =>
      completion_log sign data seen i
        ++ completion_logs sign data (seen ++ [i]) rest
  end.

(** The arguments of the calls of [setImages] in a trace. *)
Fixpoint set_images_calls (t : list Effect) : list (list jsstring) :=
  match t with
  | [] => []
  | SetImages urls :: rest => urls :: set_images_calls rest
  | _ :: rest => set_images_calls rest
  end.

(** The arguments of the calls of [setGeneratedImage] in a trace. *)
Fixpoint set_generated_image_calls (t : list Effect) : list jsstring :=
  match t with
  | [] => []
  | SetGeneratedImage image :: rest => image :: set_generated_image_calls rest
  | _ :: rest => set_generated_image_calls rest
  end.

(** The ways a generation response can be unusable, after the
    specification. *)
Inductive Defect : Type :=
| NonSuccessStatus
| MissingArtifacts
| EmptyArtifacts
| MissingBase64.

Definition has_defect (d : Defect) (response : Response) : Prop :=
  match d with
  | NonSuccessStatus => ok response = false
  | MissingArtifacts =>
      ok response = true /\
      exists fields, json response = Some (VObj fields) /\
                     lookup_field (js "artifacts") fields = VUndefined
  | EmptyArtifacts =>
      ok response = true /\
      exists fields, json response = Some (VObj fields) /\
                     lookup_field (js "artifacts") fields = VArr []
  | MissingBase64 =>
      ok response = true /\
      exists fields first others,
        json response = Some (VObj fields) /\
        lookup_field (js "artifacts") fields = VArr (VObj first :: others) /\
        lookup_field (js "base64") first = VUndefined
  end.


(** ** The rest of the component *)

Module AppView.

(** [onChange={(e) => setPrompt(e.target.value)}] (line 140): the state
    after the text input changed to [value]. *)
Definition setPrompt (value : jsstring) (st : AppState) : AppState :=
  mkAppState (generatedImage st) (isLoading st) (images st) value.

(** A value used as a JSX condition: [null] and the empty string count
    as false. *)
Definition truthy (g : option jsstring) : bool :=
  match g with
  | Some (_ :: _) => true
  | _ => false
  end.

(** The decimal digits of an array index, as a template literal
    interpolates it. *)
Definition decimal (n : nat) : jsstring :=
  js (NilZero.string_of_uint (Nat.to_uint n)).

(** One tile of the gallery grid: the [key] of the [div], and the [src]
    and [alt] of its [img]. *)
Record Tile : Type := mkTile {
  tile_key : nat;
  tile_src : jsstring;
  tile_alt : jsstring
}.

(** What the returned element takes from the state (lines 129 to 202);
    the fixed markup and the class names are left out. *)
Record View : Type := mkView {
  input_value : jsstring;
  generate_disabled : bool;
  spinner : bool;
  preview_src : option jsstring;
  save_button : bool;
  tiles : list Tile
}.

Definition render (st : AppState) : View :=
  {| (* [value={prompt}] *)
     input_value := prompt st;
     (* [disabled={isLoading}] *)
     generate_disabled := isLoading st;
     (* [isLoading ? <spinner> : <>Generate</>] *)
     spinner := isLoading st;
     (* [generatedImage ? <img src={generatedImage}> : <div>Let's generate</div>] *)
     preview_src :=
       if truthy (generatedImage st) then generatedImage st else None;
     (* [generatedImage && <button onClick={handleSaveImage}>] *)
     save_button := truthy (generatedImage st);
     (* [images.map((img, index) => <div key={index}><img src={img} alt=...>)] *)
     tiles :=
       imap (fun index img => mkTile index img (js "Gallery " ++ decimal index))
            (images st) |}.

End AppView.

Import AppView.

(** ** Reading a trace *)

(** The requests for a signed URL in a trace: bucket, name and
    time-to-live. *)
Fixpoint signed_url_requests (t : list Effect) : list (jsstring * jsstring * N) :=
  match t with
  | [] => []
  | CreateSignedUrl b n ttl :: rest => (b, n, ttl) :: signed_url_requests rest
  | _ :: rest => signed_url_requests rest
  end.

(** The uploads in a trace: key, bytes and content type. *)
Fixpoint uploads (t : list Effect) : list (jsstring * list N * jsstring) :=
  match t with
  | [] => []
  | Upload _ key bytes contentType :: rest =>
      (key, bytes, contentType) :: uploads rest
  | _ :: rest => uploads rest
  end.

(** The labels of the [console.error] lines in a trace. *)
Fixpoint console_errors (t : list Effect) : list jsstring :=
  match t with
  | [] => []
  | ConsoleError label :: rest => label :: console_errors rest
  | _ :: rest => console_errors rest
  end.

(** The requests to the generation service in a trace: URL and prompt. *)
Fixpoint fetch_posts (t : list Effect) : list (jsstring * jsstring) :=
  match t with
  | [] => []
  | FetchPost url text_prompt :: rest => (url, text_prompt) :: fetch_posts rest
  | _ :: rest => fetch_posts rest
  end.

(** [responseJSON.artifacts[0].base64] (line 99), as a value or the
    exception the reads throw. *)
Definition first_base64 (body : jsval) : Result jsval :=
  match get_named body (js "artifacts") with
  | Returned artifacts =>
      match get_index0 artifacts with
      | Returned first => get_named first (js "base64")
      | Thrown e => Thrown e
      end
  | Thrown e => Thrown e
  end.

(** The text line 100 interpolates: [`${responseJSON.artifacts[0].base64}`],
    or the exception the reads or the conversion throw. *)
Definition rendered_base64 (body : jsval) : Result jsstring :=
  match first_base64 body with
  | Returned v => ToString v
  | Thrown e => Thrown e
  end.

(** The letters and digits of a string, in order. *)
Definition letters_and_digits (s : jsstring) : jsstring :=
  List.filter is_alnum_i s.

(** Does the request of element [i] fail? *)
Definition resolution_fails (sign : nat -> jsstring -> SignedUrlResponse)
    (data : list FileObject) (i : nat) : bool :=
  match data !! i with
  | Some image =>
      negb (is_placeholder image)
      && match signed_error (sign i (name image)) with
         | Some _ => true
         | None => false
         end
  | None => false
  end.

(** Induction on a value that reaches the elements of an array. *)
Fixpoint jsval_elems_ind (P : jsval -> Prop)
    (Hundefined : P VUndefined) (Hnull : P VNull)
    (Hbool : forall b, P (VBool b)) (Hnum : forall r, P (VNum r))
    (Hstr : forall s, P (VStr s))
    (Harr : forall elems, Forall P elems -> P (VArr elems))
    (Hobj : forall fields, P (VObj fields)) (v : jsval) : P v :=
  match v with
  | VUndefined => Hundefined
  | VNull => Hnull
  | VBool b => Hbool b
  | VNum r => Hnum r
  | VStr s => Hstr s
  | VArr elems =>
      Harr elems
        ((fix all (l : list jsval) : Forall P l :=
            match l with
            | [] => @List.Forall_nil jsval P
            | x :: t =>
                @List.Forall_cons jsval P x t
                  (jsval_elems_ind P Hundefined Hnull Hbool Hnum Hstr Harr Hobj x)
                  (all t)
            end) elems)
  | VObj fields => Hobj fields
  end.

(** ** Inputs used below *)

Definition empty_state : AppState := mkAppState None false [] [].

Definition ok_url (url : jsstring) : SignedUrlResponse :=
  mkSignedUrlResponse (Some (mkSignedUrlData url)) None.

Definition failed_url : SignedUrlResponse :=
  mkSignedUrlResponse None (Some (storage_error (js "Object not found"))).

(** A listing of the placeholder and one image. *)
Definition listing_with_placeholder : ListResponse :=
  mkListResponse
    (Some [mkFileObject placeholder; mkFileObject (js "fox")]) None.

(** Every request is answered with a URL made from the name. *)
Definition sign_all (i : nat) (n : jsstring) : SignedUrlResponse :=
  ok_url (js "https://cdn/" ++ n).

(** The request of element 1 fails, the others succeed. *)
Definition sign_but_1 (i : nat) (n : jsstring) : SignedUrlResponse :=
  if Nat.eqb i 1 then failed_url else ok_url (js "https://cdn/" ++ n).

Definition three_images : list FileObject :=
  [mkFileObject (js "a"); mkFileObject (js "b"); mkFileObject (js "c")].

(** A success response whose body is [{}]. *)
Definition empty_object_response : Response := mkResponse true (Some (VObj [])).

(** A success response whose body is [{"artifacts": [{"seed": 1}]}]. *)
Definition no_base64_response : Response :=
  mkResponse true
    (Some (VObj [(js "artifacts", VArr [VObj [(js "seed", VNum (js "1"))]])])).

(** A success response with one artifact. *)
Definition one_artifact_response : Response :=
  mkResponse true
    (Some (VObj [(js "artifacts",
                  VArr [VObj [(js "base64", VStr (js "aGVsbG8="));
                              (js "seed", VNum (js "7"));
                              (js "finishReason", VStr (js "SUCCESS"))]])])).

(** A success response whose first artifact has an object with an own
    [toString] as [base64]: [{"artifacts": [{"base64": {"toString": 1}}]}]. *)
Definition toString_key_response : Response :=
  mkResponse true
    (Some (VObj [(js "artifacts",
                  VArr [VObj [(js "base64",
                               VObj [(js "toString", VNum (js "1"))])]])])).

(** The state after [no_base64_response] was received for the prompt
    ["a red fox"]. *)
Definition undecodable_state : AppState :=
  mkAppState (Some (js "data:image/png;base64,undefined")) false []
    (js "a red fox").

(** A state that holds a decodable image for the prompt ["a red fox"]. *)
Definition hello_state : AppState :=
  mkAppState (Some (js "data:image/png;base64,aGVsbG8=")) false []
    (js "a red fox").

(** Forty-nine letters [a], a space and a [b]: 51 code units. *)
Definition long_prompt : jsstring := replicate 49 97 ++ js " b".

Example sanitize_sunset :
  sanitizeFileName (js "My Sunset! Photo") = js "my_sunset_photo".
Proof. reflexivity. Qed.

Example sanitize_underscores : sanitizeFileName (js "___") = [].
Proof. reflexivity. Qed.

Example sanitize_200_letters :
  length (sanitizeFileName (replicate 200 97)) = 50%nat.
Proof. reflexivity. Qed.

Example sanitize_red_fox : sanitizeFileName (js "a red fox") = js "a_red_fox".
Proof. reflexivity. Qed.

Example atob_hello : atob (js "aGVsbG8=") = Returned (js "hello").
Proof. reflexivity. Qed.

Example atob_undefined : atob (js "undefined") = Thrown InvalidCharacterError.
Proof. reflexivity. Qed.

(** * Properties *)

(** ** Code units *)

Ltac unit_cases :=
  unfold to_lower_unit, is_word, is_alnum_i, is_low_alnum, is_us, is_digit,
    is_upper, is_lower, underscore in *;
  repeat match goal with
         | H : context [N.leb ?a ?b] |- _ => destruct (N.leb_spec a b)
         | |- context [N.leb ?a ?b] => destruct (N.leb_spec a b)
         | H : context [N.eqb ?a ?b] |- _ => destruct (N.eqb_spec a b)
         | |- context [N.eqb ?a ?b] => destruct (N.eqb_spec a b)
         end;
  simpl in *; try congruence; try lia.

Lemma replaced_unit_is_word (c : N) :
  is_word (if is_alnum_i c then c else underscore) = true.
Proof. unit_cases. Qed.

Lemma to_lower_keeps_us (c : N) : is_us (to_lower_unit c) = is_us c.
Proof. unit_cases. Qed.

Lemma to_lower_word (c : N) :
  is_word c = true -> is_low_alnum (to_lower_unit c) || is_us (to_lower_unit c) = true.
Proof. unit_cases. Qed.

Lemma to_lower_key_unit (c : N) :
  is_low_alnum c || is_us c = true -> to_lower_unit c = c.
Proof. unit_cases. Qed.

Lemma key_unit_replaced (c : N) :
  is_low_alnum c || is_us c = true -> (if is_alnum_i c then c else underscore) = c.
Proof. unit_cases. Qed.

Lemma key_unit_is_word (c : N) :
  is_low_alnum c || is_us c = true -> is_word c = true.
Proof. unit_cases. Qed.

Lemma word_is_ascii (c : N) : is_word c = true -> c < 128.
Proof. unit_cases. Qed.

Lemma low_alnum_not_us (c : N) : is_low_alnum c = true -> is_us c = false.
Proof. unit_cases. Qed.

Lemma key_unit_cases (c : N) :
  is_low_alnum c || is_us c = true -> is_us c = false -> is_low_alnum c = true.
Proof. unit_cases. Qed.

Lemma is_us_eq (c : N) : is_us c = true -> c = underscore.
Proof. unit_cases. Qed.

(** ** The steps of the sanitizer, one at a time *)

Lemma replace_non_alnum_words (s : jsstring) :
  forallb is_word (replace_non_alnum s) = true.
Proof.
  induction s as [|c t IH]; simpl; [reflexivity|].
  now rewrite replaced_unit_is_word.
Qed.

Lemma runs_words (b : bool) (s : jsstring) :
  forallb is_word s = true ->
  forallb is_word (replace_underscore_runs_from b s) = true.
Proof.
  revert b. induction s as [|c t IH]; intros b H; simpl in *; [reflexivity|].
  apply andb_true_iff in H as [Hc Ht].
  destruct (is_us c) eqn:Hus; [destruct b|]; simpl; auto.
  rewrite Hc. simpl. auto.
Qed.

Lemma runs_start (s : jsstring) :
  starts_with_us (replace_underscore_runs_from true s) = false.
Proof.
  induction s as [|c t IH]; simpl; [reflexivity|].
  destruct (is_us c) eqn:Hus; simpl; auto.
Qed.

Lemma runs_no_double (b : bool) (s : jsstring) :
  has_double_us (replace_underscore_runs_from b s) = false.
Proof.
  revert b. induction s as [|c t IH]; intros b; simpl; [reflexivity|].
  destruct (is_us c) eqn:Hus; [destruct b|]; simpl; auto.
  - now rewrite runs_start, IH.
  - now rewrite Hus, IH.
Qed.

Lemma edge_forallb (p : N -> bool) (a : bool) (s : jsstring) :
  forallb p s = true -> forallb p (replace_edge_underscores_from a s) = true.
Proof.
  revert a. induction s as [|c t IH]; intros a H; simpl in *; [reflexivity|].
  apply andb_true_iff in H as [Hc Ht].
  destruct (is_us c && (_ || _)); simpl; auto.
  rewrite Hc. simpl. auto.
Qed.

Lemma edge_inner_start (s : jsstring) :
  starts_with_us s = false ->
  starts_with_us (replace_edge_underscores_from false s) = false.
Proof.
  destruct s as [|c t]; simpl; [reflexivity|].
  intros H. rewrite H. simpl. exact H.
Qed.

Lemma edge_inner_nil (s : jsstring) :
  replace_edge_underscores_from false s = [] ->
  s = [] \/ starts_with_us s = true.
Proof.
  destruct s as [|c t]; simpl; [now left|].
  destruct (is_us c) eqn:Hus; simpl; [now right|discriminate].
Qed.

Lemma edge_no_double (a : bool) (s : jsstring) :
  has_double_us s = false ->
  has_double_us (replace_edge_underscores_from a s) = false.
Proof.
  revert a. induction s as [|c t IH]; intros a H; simpl in *; [reflexivity|].
  apply orb_false_iff in H as [Hc Ht].
  destruct (is_us c && (_ || _)); simpl; auto.
  rewrite (IH false Ht), orb_false_r.
  destruct (is_us c); simpl in *; [|reflexivity].
  now apply edge_inner_start.
Qed.

Lemma edge_start (s : jsstring) :
  has_double_us s = false ->
  starts_with_us (replace_edge_underscores s) = false.
Proof.
  unfold replace_edge_underscores.
  destruct s as [|c t]; simpl; [reflexivity|].
  intros H. apply orb_false_iff in H as [Hc Ht].
  rewrite andb_true_r.
  destruct (is_us c) eqn:Hus; simpl in *; [|exact Hus].
  now apply edge_inner_start.
Qed.

Lemma ends_with_us_cons (c : N) (s : jsstring) :
  s <> [] -> ends_with_us (c :: s) = ends_with_us s.
Proof. destruct s; [congruence|reflexivity]. Qed.

Lemma edge_end (a : bool) (s : jsstring) :
  has_double_us s = false ->
  ends_with_us (replace_edge_underscores_from a s) = false.
Proof.
  revert a. induction s as [|c t IH]; intros a H; [reflexivity|].
  simpl in H. apply orb_false_iff in H as [Hc Ht].
  simpl. destruct (is_us c && (_ || _)) eqn:Hdel; [now apply IH|].
  destruct (replace_edge_underscores_from false t) as [|e r] eqn:Hr.
  - apply edge_inner_nil in Hr as [-> | Hst].
    + simpl in Hdel. rewrite orb_true_r, andb_true_r in Hdel.
      unfold ends_with_us. simpl. exact Hdel.
    + rewrite Hst, andb_true_r in Hc. unfold ends_with_us. simpl. exact Hc.
  - rewrite ends_with_us_cons by discriminate.
    rewrite <- Hr. now apply IH.
Qed.

Lemma lower_start (s : jsstring) :
  starts_with_us (toLowerCase s) = starts_with_us s.
Proof. destruct s; simpl; [reflexivity|apply to_lower_keeps_us]. Qed.

Lemma lower_end (s : jsstring) :
  ends_with_us (toLowerCase s) = ends_with_us s.
Proof.
  induction s as [|c t IH]; [reflexivity|].
  destruct t as [|d t'].
  - unfold ends_with_us. simpl. apply to_lower_keeps_us.
  - change (toLowerCase (c :: d :: t'))
      with (to_lower_unit c :: toLowerCase (d :: t')).
    rewrite (ends_with_us_cons c (d :: t')) by discriminate.
    rewrite (ends_with_us_cons _ (toLowerCase (d :: t'))) by discriminate.
    exact IH.
Qed.

Lemma lower_double (s : jsstring) :
  has_double_us (toLowerCase s) = has_double_us s.
Proof.
  induction s as [|c t IH]; [reflexivity|].
  simpl. fold (toLowerCase t).
  now rewrite IH, lower_start, to_lower_keeps_us.
Qed.

Lemma lower_key_units (s : jsstring) :
  forallb is_word s = true -> all_key_units (toLowerCase s) = true.
Proof.
  unfold all_key_units.
  induction s as [|c t IH]; simpl; [reflexivity|].
  intros H. apply andb_true_iff in H as [Hc Ht].
  now rewrite (to_lower_word c Hc), IH.
Qed.

Lemma take_key_units (n : nat) (s : jsstring) :
  all_key_units s = true -> all_key_units (take n s) = true.
Proof.
  unfold all_key_units. revert n.
  induction s as [|c t IH]; intros [|n] H; simpl in *; auto.
  apply andb_true_iff in H as [Hc Ht]. rewrite Hc. simpl. auto.
Qed.

Lemma take_start (n : nat) (s : jsstring) :
  starts_with_us s = false -> starts_with_us (take n s) = false.
Proof. destruct s, n; simpl; auto. Qed.

Lemma take_no_double (n : nat) (s : jsstring) :
  has_double_us s = false -> has_double_us (take n s) = false.
Proof.
  revert n. induction s as [|c t IH]; intros [|n] H; simpl in *; auto.
  apply orb_false_iff in H as [Hc Ht].
  rewrite (IH n Ht), orb_false_r.
  destruct (is_us c); simpl in *; [|reflexivity].
  now apply take_start.
Qed.

(** ** The string before truncation *)

Lemma before_toLowerCase_is_ascii (x : jsstring) :
  Forall (fun c => c < 128)
    (replace_edge_underscores (replace_underscore_runs (replace_non_alnum x))).
Proof.
  apply Forall_forall. intros c Hc. apply word_is_ascii.
  pose proof (edge_forallb is_word true _
    (runs_words false _ (replace_non_alnum_words x))) as H.
  rewrite forallb_forall in H. apply H.
  now apply list_elem_of_In.
Qed.

Lemma normalized_key_units (x : jsstring) : all_key_units (normalized x) = true.
Proof.
  unfold normalized. apply lower_key_units, edge_forallb, runs_words,
    replace_non_alnum_words.
Qed.

Lemma normalized_no_double (x : jsstring) : has_double_us (normalized x) = false.
Proof.
  unfold normalized. rewrite lower_double.
  apply edge_no_double, runs_no_double.
Qed.

Lemma normalized_start (x : jsstring) : starts_with_us (normalized x) = false.
Proof.
  unfold normalized. rewrite lower_start.
  apply edge_start, runs_no_double.
Qed.

Lemma normalized_end (x : jsstring) : ends_with_us (normalized x) = false.
Proof.
  unfold normalized. rewrite lower_end.
  apply edge_end, runs_no_double.
Qed.

Lemma sanitize_length (x : jsstring) : (length (sanitizeFileName x) <= 50)%nat.
Proof.
  unfold sanitizeFileName, slice_0_50. rewrite length_take. lia.
Qed.

(** ** The matcher and the language of the pattern *)

Lemma key_rest_of_separators (s : jsstring) :
  all_key_units s = true -> has_double_us s = false ->
  ends_with_us s = false -> key_rest s = true.
Proof.
  unfold all_key_units.
  induction s as [|c t IH]; intros Hall Hdbl Hend; [reflexivity|].
  simpl in Hall, Hdbl. apply andb_true_iff in Hall as [Hc Hall].
  apply orb_false_iff in Hdbl as [Hcd Hdbl].
  assert (Ht : t <> [] -> key_rest t = true).
  { intros Hne. apply IH; auto. now rewrite <- (ends_with_us_cons c t). }
  simpl. destruct (is_low_alnum c) eqn:Hlow.
  - destruct t; [reflexivity|]. now apply Ht.
  - simpl in Hc. rewrite Hc in *. simpl in Hcd.
    destruct t as [|d t'].
    + unfold ends_with_us in Hend. simpl in Hend. congruence.
    + simpl in Hcd, Hall. apply andb_true_iff in Hall as [Hd _].
      rewrite (key_unit_cases d Hd Hcd). now apply Ht.
Qed.

Lemma key_patternb_of_separators (s : jsstring) :
  s <> [] -> all_key_units s = true -> starts_with_us s = false ->
  has_double_us s = false -> ends_with_us s = false ->
  key_patternb s = true.
Proof.
  intros Hne Hall Hst Hdbl Hend.
  pose proof (key_rest_of_separators s Hall Hdbl Hend) as Hrest.
  destruct s as [|c t]; [congruence|].
  simpl in *. apply andb_true_iff in Hall as [Hc _].
  rewrite (key_unit_cases c Hc Hst) in *. exact Hrest.
Qed.

Lemma key_rest_segments (s : jsstring) :
  key_rest s = true ->
  exists g gs, Forall (fun c => is_low_alnum c = true) g /\
               Forall segment gs /\
               s = g ++ concat (map (cons underscore) gs).
Proof.
  induction s as [|c t IH]; intros H.
  - exists [], []. repeat split; constructor.
  - simpl in H. destruct (is_low_alnum c) eqn:Hlow.
    + destruct (IH H) as (g & gs & Hg & Hgs & ->).
      exists (c :: g), gs. repeat split; auto.
    + destruct (is_us c) eqn:Hus; [|discriminate].
      destruct t as [|d t']; [discriminate|].
      apply andb_true_iff in H as [Hd H].
      destruct (IH H) as (g & gs & Hg & Hgs & Heq).
      exists [], (g :: gs). repeat split; auto.
      * constructor; [|exact Hgs]. split; [|exact Hg].
        intros ->. simpl in Heq. destruct gs as [|h gs']; [discriminate|].
        simpl in Heq. injection Heq as Hd' _. subst d. discriminate.
      * simpl. rewrite <- Heq. now rewrite (is_us_eq c Hus).
Qed.

Lemma segments_key_rest (gs : list jsstring) :
  Forall segment gs ->
  forall g, Forall (fun c => is_low_alnum c = true) g ->
  key_rest (g ++ concat (map (cons underscore) gs)) = true.
Proof.
  induction 1 as [|h gs [Hne Hh] Hgs IH]; intros g Hg.
  - simpl. rewrite app_nil_r. induction Hg as [|c g Hc _ IHg]; simpl; auto.
    now rewrite Hc.
  - induction Hg as [|c g Hc _ IHg]; simpl.
    + destruct h as [|d h']; [congruence|].
      simpl. change (is_low_alnum 95) with false. simpl.
      specialize (IH (d :: h') Hh). simpl in IH.
      inversion Hh as [|? ? Hd _]; subst.
      rewrite Hd in *. exact IH.
    + now rewrite Hc.
Qed.

(** The matcher decides the pattern. *)
Lemma key_patternb_spec (s : jsstring) : key_patternb s = true <-> key_pattern s.
Proof.
  split.
  - destruct s as [|c t]; [discriminate|]. simpl. intros H.
    apply andb_true_iff in H as [Hc Ht].
    destruct (key_rest_segments t Ht) as (g & gs & Hg & Hgs & ->).
    exists (c :: g), gs. repeat split; auto.
  - intros (g & gs & [Hne Hg] & Hgs & ->).
    pose proof (segments_key_rest gs Hgs g Hg) as H.
    destruct g as [|c g']; [congruence|].
    simpl in *. inversion Hg as [|? ? Hc _]; subst.
    now rewrite Hc in *.
Qed.

(** ** A key cut short *)

Lemma double_snoc (w : jsstring) (c : N) :
  has_double_us (w ++ [c]) = has_double_us w || (ends_with_us w && is_us c).
Proof.
  induction w as [|a w IH].
  - simpl. now rewrite andb_false_r.
  - change ((a :: w) ++ [c]) with (a :: (w ++ [c])).
    cbn [has_double_us]. rewrite IH.
    destruct w as [|b w'].
    + unfold ends_with_us. simpl.
      now rewrite andb_false_r, !orb_false_r.
    + rewrite (ends_with_us_cons a (b :: w')) by discriminate.
      simpl. now rewrite !orb_assoc.
Qed.

Lemma ends_with_us_snoc (s : jsstring) :
  ends_with_us s = true -> exists w, s = w ++ [underscore].
Proof.
  unfold ends_with_us. destruct (last s) as [c|] eqn:Hl; [|discriminate].
  intros Hc. apply last_Some in Hl as [w ->].
  exists w. now rewrite (is_us_eq c Hc).
Qed.

(** A string with the units of a key, no leading and no doubled
    underscore is empty, a key, or a key followed by one underscore. *)
Lemma prefix_shape (s : jsstring) :
  all_key_units s = true -> starts_with_us s = false ->
  has_double_us s = false ->
  s = [] \/ key_patternb s = true \/
  (exists w, s = w ++ [underscore] /\ key_patternb w = true).
Proof.
  intros Hall Hst Hdbl.
  destruct s as [|c0 t0] eqn:Hs; [now left|]. rewrite <- Hs in *. right.
  destruct (ends_with_us s) eqn:Hend.
  - right. destruct (ends_with_us_snoc s Hend) as [w Hw].
    exists w. split; [exact Hw|]. rewrite Hw in Hall, Hst, Hdbl.
    rewrite double_snoc in Hdbl. apply orb_false_iff in Hdbl as [Hdw Hew].
    change (is_us underscore) with true in Hew. rewrite andb_true_r in Hew.
    unfold all_key_units in Hall. rewrite forallb_app in Hall.
    apply andb_true_iff in Hall as [Hall _].
    destruct w as [|a w']; [discriminate|].
    apply key_patternb_of_separators; auto.
  - left. apply key_patternb_of_separators; auto. rewrite Hs. discriminate.
Qed.

(** ** Sanitizing a sanitized name *)

Lemma replace_non_alnum_id (s : jsstring) :
  all_key_units s = true -> replace_non_alnum s = s.
Proof.
  unfold all_key_units.
  induction s as [|c t IH]; simpl; [reflexivity|].
  intros H. apply andb_true_iff in H as [Hc Ht].
  now rewrite (key_unit_replaced c Hc), IH.
Qed.

Lemma runs_id (b : bool) (s : jsstring) :
  has_double_us s = false -> (b = true -> starts_with_us s = false) ->
  replace_underscore_runs_from b s = s.
Proof.
  revert b. induction s as [|c t IH]; intros b Hdbl Hb; [reflexivity|].
  simpl in *. apply orb_false_iff in Hdbl as [Hc Ht].
  destruct (is_us c) eqn:Hus.
  - destruct b; [now specialize (Hb eq_refl)|].
    rewrite (is_us_eq c Hus). f_equal. apply IH; auto.
  - f_equal. apply IH; auto. discriminate.
Qed.

Lemma edge_outer_inner (s : jsstring) :
  starts_with_us s = false ->
  replace_edge_underscores s = replace_edge_underscores_from false s.
Proof.
  unfold replace_edge_underscores.
  destruct s as [|c t]; simpl; [reflexivity|]. now intros ->.
Qed.

Lemma edge_inner_id (s : jsstring) :
  ends_with_us s = false -> replace_edge_underscores_from false s = s.
Proof.
  induction s as [|c t IH]; intros Hend; [reflexivity|].
  destruct t as [|d t'].
  - unfold ends_with_us in Hend. simpl in *. now rewrite Hend.
  - rewrite ends_with_us_cons in Hend by discriminate.
    cbn [replace_edge_underscores_from]. rewrite andb_false_r.
    f_equal. now apply IH.
Qed.

Lemma edge_length (a : bool) (s : jsstring) :
  (length (replace_edge_underscores_from a s) <= length s)%nat.
Proof.
  revert a. induction s as [|c t IH]; intros a; simpl; [lia|].
  destruct (is_us c && (_ || _)); simpl; specialize (IH false); lia.
Qed.

Lemma toLowerCase_id (s : jsstring) :
  all_key_units s = true -> toLowerCase s = s.
Proof.
  unfold all_key_units.
  induction s as [|c t IH]; simpl; [reflexivity|].
  intros H. apply andb_true_iff in H as [Hc Ht].
  now rewrite (to_lower_key_unit c Hc), IH.
Qed.

Lemma sanitize_key_units (x : jsstring) : all_key_units (sanitizeFileName x) = true.
Proof. apply take_key_units, normalized_key_units. Qed.

Lemma sanitize_start (x : jsstring) : starts_with_us (sanitizeFileName x) = false.
Proof. apply take_start, normalized_start. Qed.

Lemma sanitize_no_double (x : jsstring) : has_double_us (sanitizeFileName x) = false.
Proof. apply take_no_double, normalized_no_double. Qed.

(** The second pass only deletes the underscore that truncation may have
    left at the end. *)
Lemma sanitize_twice (x : jsstring) :
  sanitizeFileName (sanitizeFileName x)
  = replace_edge_underscores_from false (sanitizeFileName x).
Proof.
  set (s := sanitizeFileName x).
  pose proof (sanitize_key_units x) as Hall.
  pose proof (sanitize_start x) as Hst.
  pose proof (sanitize_no_double x) as Hdbl.
  pose proof (sanitize_length x) as Hlen.
  fold s in Hall, Hst, Hdbl, Hlen.
  unfold sanitizeFileName at 1, normalized, slice_0_50.
  rewrite (replace_non_alnum_id s Hall).
  unfold replace_underscore_runs.
  rewrite (runs_id false s Hdbl) by discriminate.
  rewrite (edge_outer_inner s Hst).
  rewrite toLowerCase_id by now apply edge_forallb.
  apply take_ge. pose proof (edge_length false s). lia.
Qed.

(** ** The sanitizer: claims *)

(** C4, at the input where the code departs from it: for
    [long_prompt] the chain holds 49 letters, an underscore and a [b]
    before [.slice(0, 50)], and the slice cuts right after the underscore.
    The result is not empty, has 50 code units, and does not match
    [^[a-z0-9]+(_[a-z0-9]+)*$]. *)
Theorem sanitize_long_prompt_breaks_pattern :
  normalized long_prompt = replicate 49 97 ++ js "_b" /\
  sanitizeFileName long_prompt = replicate 49 97 ++ js "_" /\
  sanitizeFileName long_prompt <> [] /\
  length (sanitizeFileName long_prompt) = 50%nat /\
  ~ key_pattern (sanitizeFileName long_prompt).
Proof.
  repeat split; try reflexivity; try discriminate.
  intros H. apply key_patternb_spec in H. vm_compute in H. discriminate.
Qed.

(** Where the output does not end in an underscore, a second pass
    changes nothing. *)
Lemma sanitize_stable_without_trailing_us (x : jsstring) :
  ends_with_us (sanitizeFileName x) = false ->
  sanitizeFileName (sanitizeFileName x) = sanitizeFileName x.
Proof.
  intros Hend. rewrite sanitize_twice. now apply edge_inner_id.
Qed.

(** C5, at the input where the code departs from it: sanitizing
    [long_prompt] gives 49 letters and an underscore, and sanitizing that
    gives the 49 letters alone, so the second pass is not the identity on
    the output of the first. *)
Theorem sanitize_twice_differs_on_long_prompt :
  sanitizeFileName long_prompt = replicate 49 97 ++ js "_" /\
  sanitizeFileName (sanitizeFileName long_prompt) = replicate 49 97 /\
  sanitizeFileName (sanitizeFileName long_prompt) <> sanitizeFileName long_prompt.
Proof.
  split; [vm_compute; reflexivity|]. split; [vm_compute; reflexivity|].
  vm_compute. discriminate.
Qed.

(** C10: the output of [sanitize] never begins with an underscore and
    never holds two underscores in a row. Before truncation the string is
    empty or matches the key pattern; after it the output is empty,
    matches the pattern, or is a match followed by one underscore, and
    the last only when truncation did cut (more than 50 code units
    before, exactly 50 after). *)
Theorem sanitize_separator_anomaly (x : jsstring) :
  starts_with_us (sanitizeFileName x) = false /\
  has_double_us (sanitizeFileName x) = false /\
  (normalized x = [] \/ key_pattern (normalized x)) /\
  (sanitizeFileName x = [] \/
   key_pattern (sanitizeFileName x) \/
   (exists w, sanitizeFileName x = w ++ [underscore] /\ key_pattern w /\
              (50 < length (normalized x))%nat /\
              length (sanitizeFileName x) = 50%nat)).
Proof.
  split; [apply sanitize_start|]. split; [apply sanitize_no_double|]. split.
  - destruct (normalized x) as [|c t] eqn:Hn; [now left|right].
    rewrite <- Hn. apply key_patternb_spec, key_patternb_of_separators.
    + rewrite Hn. discriminate.
    + apply normalized_key_units.
    + apply normalized_start.
    + apply normalized_no_double.
    + apply normalized_end.
  - destruct (prefix_shape (sanitizeFileName x) (sanitize_key_units x)
                (sanitize_start x) (sanitize_no_double x))
      as [H | [H | (w & Hw & Hk)]].
    + now left.
    + right. left. now apply key_patternb_spec.
    + right. right. exists w. split; [exact Hw|].
      split; [now apply key_patternb_spec|].
      assert (Hcut : (50 < length (normalized x))%nat).
      { destruct (Nat.lt_ge_cases 50 (length (normalized x))) as [Hlt|Hge];
          [exact Hlt|].
        pose proof (normalized_end x) as Hend.
        unfold sanitizeFileName, slice_0_50 in Hw.
        rewrite take_ge in Hw by exact Hge.
        rewrite Hw in Hend. unfold ends_with_us in Hend.
        rewrite last_snoc in Hend. discriminate. }
      split; [exact Hcut|].
      unfold sanitizeFileName, slice_0_50. rewrite length_take. lia.
Qed.

(** ** Running the handlers *)

#[global] Arguments js : simpl never.
#[global] Arguments bucket : simpl never.
#[global] Arguments placeholder : simpl never.
#[global] Arguments data_uri_png : simpl never.
#[global] Arguments generation_url : simpl never.
#[global] Arguments non_200_message : simpl never.
#[global] Arguments sanitizeFileName : simpl never.
#[global] Arguments atob : simpl never.

Lemma bind_run {A B} (m : M A) (k : A -> M B) (w : World) :
  (m ≫= k) w
  = match m w with
    | (Returned a, w') => k a w'
    | (Thrown e, w') => (Thrown e, w')
    end.
Proof. reflexivity. Qed.

Ltac mrun :=
  unfold setIsLoading, setGeneratedImage, setImages, console_error,
    console_log, fetch, response_json, start_task, finish_task in *;
  unfold lift, emit, update, read_state, throw in *;
  unfold mbind, mret, M_bind, M_ret, bind, ret in *;
  simpl in *.

Lemma start_all_run (data : list FileObject) (w : World) :
  start_all data w
  = (Returned (map (fun image => if is_placeholder image then Some [] else None) data),
     mkWorld (app w) (trace w ++ requests data)).
Proof.
  revert w. induction data as [|image rest IH]; intros [st t].
  - simpl. now rewrite app_nil_r.
  - cbn [start_all]. rewrite bind_run.
    destruct (is_placeholder image) eqn:Hp; mrun; rewrite Hp; simpl.
    + rewrite IH. reflexivity.
    + rewrite IH. simpl. now rewrite <- app_assoc.
Qed.

Lemma start_slots (sign : nat -> jsstring -> SignedUrlResponse)
    (data : list FileObject) :
  map (fun image => if is_placeholder image then Some [] else None) data
  = slots_of sign data [].
Proof.
  unfold slots_of.
  assert (H : forall (g : nat -> FileObject -> option jsstring),
             (forall i image, g i image
                = if is_placeholder image then Some [] else None) ->
             map (g 0%nat) data = imap g data).
  { induction data as [|image rest IH]; intros g Hg; [reflexivity|].
    cbn. f_equal. rewrite <- (IH (g ∘ S)).
    - apply map_ext. intros a. cbn. now rewrite !Hg.
    - intros i a. apply Hg. }
  rewrite <- H.
  - apply map_ext. intros image. unfold answered, entry_url. 
    destruct (is_placeholder image); reflexivity.
  - intros i image. unfold answered, entry_url.
    destruct (is_placeholder image); reflexivity.
Qed.

(** ** fetchImages: the promises of [Promise.all] *)

Lemma answered_snoc (seen : list nat) (i j : nat) (image : FileObject) :
  answered (seen ++ [i]) j image = answered seen j image || Nat.eqb j i.
Proof.
  unfold answered. rewrite existsb_app. simpl.
  now rewrite orb_false_r, orb_assoc.
Qed.

Lemma slots_of_lookup (sign : nat -> jsstring -> SignedUrlResponse)
    (data : list FileObject) (seen : list nat) (j : nat) :
  slots_of sign data seen !! j
  = (fun image =>
       if answered seen j image then Some (entry_url sign j image) else None)
      <$> data !! j.
Proof. apply list_lookup_imap. Qed.

Lemma slots_of_unchanged (sign : nat -> jsstring -> SignedUrlResponse)
    (data : list FileObject) (seen : list nat) (i : nat) :
  (forall image, data !! i = Some image -> answered seen i image = true) ->
  slots_of sign data (seen ++ [i]) = slots_of sign data seen.
Proof.
  intros H. apply list_eq. intros j. rewrite !slots_of_lookup.
  destruct (data !! j) as [image|] eqn:Hj; simpl; [|reflexivity].
  rewrite answered_snoc. destruct (Nat.eqb_spec j i) as [->|Hne].
  - now rewrite (H _ Hj).
  - now rewrite orb_false_r.
Qed.

Lemma slots_of_insert (sign : nat -> jsstring -> SignedUrlResponse)
    (data : list FileObject) (seen : list nat) (i : nat) (image : FileObject) :
  data !! i = Some image ->
  <[i := Some (entry_url sign i image)]> (slots_of sign data seen)
  = slots_of sign data (seen ++ [i]).
Proof.
  intros Hi. apply list_eq. intros j.
  destruct (decide (i = j)) as [<-|Hne].
  - rewrite list_lookup_insert_eq.
    + rewrite slots_of_lookup, Hi. simpl. rewrite answered_snoc.
      now rewrite Nat.eqb_refl, orb_true_r.
    + unfold slots_of. rewrite length_imap. now apply lookup_lt_Some in Hi.
  - rewrite list_lookup_insert_ne by exact Hne.
    rewrite !slots_of_lookup.
    destruct (data !! j) as [image'|]; simpl; [|reflexivity].
    rewrite answered_snoc.
    destruct (Nat.eqb_spec j i) as [->|_]; [congruence|].
    now rewrite orb_false_r.
Qed.

Lemma complete_run (sign : nat -> jsstring -> SignedUrlResponse)
    (data : list FileObject) (seen : list nat) (i : nat) (w : World) :
  complete sign data (slots_of sign data seen) i w
  = (Returned (slots_of sign data (seen ++ [i])),
     mkWorld (app w) (trace w ++ completion_log sign data seen i)).
Proof.
  destruct w as [st t].
  unfold complete, completion_log. rewrite slots_of_lookup.
  destruct (data !! i) as [image|] eqn:Hi; simpl.
  - destruct (answered seen i image) eqn:Ha.
    + mrun. rewrite app_nil_r, slots_of_unchanged; [reflexivity|].
      intros image' Hi'. congruence.
    + rewrite <- (slots_of_insert sign data seen i image Hi).
      unfold answered in Ha. apply orb_false_iff in Ha as [Hp _].
      unfold entry_url. rewrite Hp. mrun.
      destruct (signed_error (sign i (name image))); simpl; [reflexivity|].
      now rewrite app_nil_r.
  - mrun. rewrite app_nil_r, slots_of_unchanged; [reflexivity|].
    intros image' Hi'. congruence.
Qed.

Lemma complete_all_run (sign : nat -> jsstring -> SignedUrlResponse)
    (data : list FileObject) (arrivals seen : list nat) (w : World) :
  complete_all sign data (slots_of sign data seen) arrivals w
  = (Returned (slots_of sign data (seen ++ arrivals)),
     mkWorld (app w) (trace w ++ completion_logs sign data seen arrivals)).
Proof.
  revert seen w. induction arrivals as [|i rest IH]; intros seen [st t].
  - simpl. now rewrite !app_nil_r.
  - cbn [complete_all completion_logs]. rewrite bind_run, complete_run.
    rewrite IH. simpl. now rewrite <- !app_assoc.
Qed.

Lemma settled_imap (ok : nat -> FileObject -> bool)
    (g : nat -> FileObject -> jsstring) (data : list FileObject) :
  forall f : nat -> FileObject -> option jsstring,
  (forall i x, f i x = if ok i x then Some (g i x) else None) ->
  settled (imap f data)
  = if forallb id (imap ok data) then Some (imap g data) else None.
Proof.
  revert ok g. induction data as [|x l IH]; intros ok g f Hf; [reflexivity|].
  cbn. rewrite Hf. destruct (ok 0%nat x); [|reflexivity].
  rewrite (IH (ok ∘ S) (g ∘ S)) by (intros i y; apply Hf).
  simpl. now destruct (forallb id (imap (ok ∘ S) l)).
Qed.

Lemma settled_slots (sign : nat -> jsstring -> SignedUrlResponse)
    (data : list FileObject) (seen : list nat) :
  settled (slots_of sign data seen)
  = if all_answered data seen then Some (gallery_urls sign data) else None.
Proof. unfold slots_of. now apply settled_imap. Qed.

(** [fetchImages] in full: what it returns, the state it leaves and the
    trace it writes, for every answer of the storage service and every
    order of arrival. *)
Lemma fetchImages_run (listing : ListResponse)
    (sign : nat -> jsstring -> SignedUrlResponse) (arrivals : list nat)
    (st : AppState) :
  run (fetchImages listing sign arrivals) st
  = match list_error listing, list_data listing with
    | Some _, _ =>
        (Returned tt,
         mkWorld st [StorageList bucket; ConsoleError (js "Error fetching images:")])
    | None, None => (Returned tt, mkWorld st [StorageList bucket])
    | None, Some data =>
        if all_answered data arrivals
        then (Returned tt,
              mkWorld (mkAppState (generatedImage st) (isLoading st)
                         (gallery_urls sign data) (prompt st))
                (StorageList bucket :: requests data
                   ++ completion_logs sign data [] arrivals
                   ++ [SetImages (gallery_urls sign data)]))
        else (Returned tt,
              mkWorld st
                (StorageList bucket :: requests data
                   ++ completion_logs sign data [] arrivals))
    end.
Proof.
  unfold run, fetchImages. rewrite bind_run.
  destruct (list_error listing) as [e|]; [reflexivity|].
  destruct (list_data listing) as [data|]; [|reflexivity].
  change (emit (StorageList bucket) (mkWorld st []))
    with (Returned tt, mkWorld st [StorageList bucket]).
  cbv iota beta. rewrite bind_run, start_all_run, (start_slots sign).
  rewrite bind_run, complete_all_run, settled_slots. simpl.
  destruct (all_answered data arrivals); mrun; [|reflexivity].
  now rewrite <- !app_assoc.
Qed.

Lemma forallb_imap_true (ok : nat -> FileObject -> bool) (data : list FileObject) :
  (forall i x, data !! i = Some x -> ok i x = true) ->
  forallb id (imap ok data) = true.
Proof.
  revert ok. induction data as [|x l IH]; intros ok H; [reflexivity|].
  cbn. rewrite (H 0%nat x eq_refl). simpl.
  apply IH. intros i y Hi. apply (H (S i) y Hi).
Qed.

Lemma all_answered_true (data : list FileObject) (arrivals : list nat) :
  (forall i image, data !! i = Some image ->
                   is_placeholder image = false -> In i arrivals) ->
  all_answered data arrivals = true.
Proof.
  intros H. apply forallb_imap_true. intros i image Hi.
  unfold answered. destruct (is_placeholder image) eqn:Hp; [reflexivity|].
  simpl. apply existsb_exists. exists i. split; [exact (H i image Hi Hp)|].
  apply Nat.eqb_refl.
Qed.

Lemma all_answered_seq (data : list FileObject) :
  all_answered data (seq 0 (length data)) = true.
Proof.
  apply all_answered_true. intros i image Hi _.
  apply in_seq. apply lookup_lt_Some in Hi. lia.
Qed.

Lemma gallery_urls_lookup (sign : nat -> jsstring -> SignedUrlResponse)
    (data : list FileObject) (i : nat) :
  gallery_urls sign data !! i = entry_url sign i <$> data !! i.
Proof. apply list_lookup_imap. Qed.

Lemma gallery_urls_length (sign : nat -> jsstring -> SignedUrlResponse)
    (data : list FileObject) :
  length (gallery_urls sign data) = length data.
Proof. apply length_imap. Qed.

Lemma set_images_calls_app (t u : list Effect) :
  set_images_calls (t ++ u) = set_images_calls t ++ set_images_calls u.
Proof.
  induction t as [|e t IH]; [reflexivity|].
  destruct e; simpl; now rewrite IH.
Qed.

Lemma set_images_calls_requests (data : list FileObject) :
  set_images_calls (requests data) = [].
Proof.
  induction data as [|image rest IH]; [reflexivity|].
  unfold requests in *. simpl. rewrite set_images_calls_app, IH.
  now destruct (is_placeholder image).
Qed.

Lemma set_images_calls_logs (sign : nat -> jsstring -> SignedUrlResponse)
    (data : list FileObject) (arrivals seen : list nat) :
  set_images_calls (completion_logs sign data seen arrivals) = [].
Proof.
  revert seen. induction arrivals as [|i rest IH]; intros seen; [reflexivity|].
  simpl. rewrite set_images_calls_app, IH, app_nil_r.
  unfold completion_log. destruct (data !! i) as [image|]; [|reflexivity].
  destruct (answered seen i image); [reflexivity|].
  now destruct (signed_error (sign i (name image))).
Qed.

(** ** fetchImages: claims *)

(** C1, at the input where the code departs from it: for a listing of
    the placeholder and one image the gallery has two entries, as many as
    the raw listing, and the placeholder is the empty string at index 0.
    For every listing, once every request is answered, the gallery has
    the length of the raw listing. *)
Theorem gallery_keeps_placeholder_entry :
  images (app (snd (run (fetchImages listing_with_placeholder sign_all [1%nat])
                      empty_state)))
  = [ []; js "https://cdn/fox" ] /\
  forall data sign st,
    length (images (app (snd (run (fetchImages (mkListResponse (Some data) None)
                                     sign (seq 0 (length data))) st))))
    = length data.
Proof.
  split; [reflexivity|].
  intros data sign st. rewrite fetchImages_run. simpl.
  rewrite all_answered_seq. simpl. apply gallery_urls_length.
Qed.

(** C2: for a listing without the placeholder, whatever the order in
    which the answers arrive, the handler returns without throwing, the
    gallery has the length of the listing, and entry [i] is the signed URL
    of name [i], or the empty string when its resolution failed. *)
Theorem gallery_keeps_length_and_order (data : list FileObject)
    (sign : nat -> jsstring -> SignedUrlResponse) (arrivals : list nat)
    (st : AppState) :
  Forall (fun image => is_placeholder image = false) data ->
  (forall i, (i < length data)%nat -> In i arrivals) ->
  let r := run (fetchImages (mkListResponse (Some data) None) sign arrivals) st in
  fst r = Returned tt /\
  length (images (app (snd r))) = length data /\
  forall i image, data !! i = Some image ->
    images (app (snd r)) !! i
    = Some match signed_error (sign i (name image)) with
           | Some _ => []
           | None =>
               match signed_data (sign i (name image)) with
               | Some d => signedUrl d
               | None => []
               end
           end.
Proof.
  intros Hdata Hall r. subst r. rewrite fetchImages_run. simpl.
  rewrite all_answered_true.
  2:{ intros i image Hi _. apply Hall. now apply lookup_lt_Some in Hi. }
  simpl. split; [reflexivity|]. split; [apply gallery_urls_length|].
  intros i image Hi. rewrite gallery_urls_lookup, Hi. simpl.
  unfold entry_url. rewrite Forall_forall in Hdata.
  rewrite (Hdata image); [reflexivity|].
  apply list_elem_of_lookup. now exists i.
Qed.

Lemma gallery_keeps_length_and_order_witness :
  let r := run (fetchImages (mkListResponse (Some three_images) None)
                  sign_but_1 [2%nat; 0%nat; 1%nat]) empty_state in
  fst r = Returned tt /\
  images (app (snd r)) = [js "https://cdn/a"; []; js "https://cdn/c"].
Proof.
  assert (Hp : Forall (fun image => is_placeholder image = false) three_images).
  { repeat constructor. }
  assert (Hall : forall i, (i < length three_images)%nat ->
                           In i [2%nat; 0%nat; 1%nat]).
  { intros i Hi. simpl in *. lia. }
  destruct (gallery_keeps_length_and_order three_images sign_but_1
              [2%nat; 0%nat; 1%nat] empty_state Hp Hall) as (Hr & _ & _).
  split; [exact Hr|reflexivity].
Defined.

(** C9: when the listing fails (or carries no data) the state is left as
    it was and [setImages] is not called. With a listing, as long as some
    request is unanswered the state is as it was and [setImages] has not
    been called; once all are answered [setImages] has been called exactly
    once, as the last thing the handler did, with the whole gallery. *)
Theorem gallery_replaced_once_after_all_answers (listing : ListResponse)
    (sign : nat -> jsstring -> SignedUrlResponse) (arrivals : list nat)
    (st : AppState) :
  let w := snd (run (fetchImages listing sign arrivals) st) in
  match list_error listing, list_data listing with
  | Some _, _ | None, None =>
      app w = st /\ set_images_calls (trace w) = []
  | None, Some data =>
      if all_answered data arrivals
      then images (app w) = gallery_urls sign data /\
           set_images_calls (trace w) = [gallery_urls sign data] /\
           last (trace w) = Some (SetImages (gallery_urls sign data))
      else app w = st /\ set_images_calls (trace w) = []
  end.
Proof.
  intros w. subst w. rewrite fetchImages_run.
  destruct (list_error listing) as [e|]; [now split|].
  destruct (list_data listing) as [data|]; [|now split].
  destruct (all_answered data arrivals); simpl.
  - rewrite !set_images_calls_app, set_images_calls_requests,
      set_images_calls_logs. split; [reflexivity|]. split; [reflexivity|].
    rewrite app_assoc.
    change (StorageList bucket
              :: (requests data ++ completion_logs sign data [] arrivals)
              ++ [SetImages (gallery_urls sign data)])
      with ((StorageList bucket
               :: requests data ++ completion_logs sign data [] arrivals)
              ++ [SetImages (gallery_urls sign data)]).
    apply last_snoc.
  - rewrite set_images_calls_app, set_images_calls_requests,
      set_images_calls_logs. now split.
Qed.

(** ** handleGenerateImage *)

Lemma generate_non_success (j : option jsval) (st : AppState) :
  run (handleGenerateImage (FetchResolved (mkResponse false j))) st
  = (Thrown (JsError non_200_message),
     mkWorld (mkAppState (generatedImage st) false (images st) (prompt st))
       [SetIsLoading true; FetchPost generation_url (prompt st);
        SetIsLoading false]).
Proof. reflexivity. Qed.

Lemma generate_no_artifacts (fields : list (jsstring * jsval)) (st : AppState) :
  lookup_field (js "artifacts") fields = VUndefined ->
  run (handleGenerateImage (FetchResolved (mkResponse true (Some (VObj fields))))) st
  = (Thrown TypeError,
     mkWorld (mkAppState (generatedImage st) true (images st) (prompt st))
       [SetIsLoading true; FetchPost generation_url (prompt st)]).
Proof.
  intros H. unfold run, handleGenerateImage. mrun. now rewrite H.
Qed.

Lemma generate_empty_artifacts (fields : list (jsstring * jsval)) (st : AppState) :
  lookup_field (js "artifacts") fields = VArr [] ->
  run (handleGenerateImage (FetchResolved (mkResponse true (Some (VObj fields))))) st
  = (Thrown TypeError,
     mkWorld (mkAppState (generatedImage st) true (images st) (prompt st))
       [SetIsLoading true; FetchPost generation_url (prompt st)]).
Proof.
  intros H. unfold run, handleGenerateImage. mrun. now rewrite H.
Qed.

Lemma generate_no_base64 (fields first : list (jsstring * jsval))
    (others : list jsval) (st : AppState) :
  lookup_field (js "artifacts") fields = VArr (VObj first :: others) ->
  lookup_field (js "base64") first = VUndefined ->
  run (handleGenerateImage (FetchResolved (mkResponse true (Some (VObj fields))))) st
  = (Returned tt,
     mkWorld (mkAppState (Some (data_uri_png ++ js "undefined")) false
                (images st) (prompt st))
       [SetIsLoading true; FetchPost generation_url (prompt st);
        SetGeneratedImage (data_uri_png ++ js "undefined");
        SetIsLoading false]).
Proof.
  intros H1 H2. unfold run, handleGenerateImage. mrun.
  rewrite H1. simpl. now rewrite H2.
Qed.

(** C3, at the input where the code departs from it. A response with a
    non-success status clears the loading flag and throws. A success
    response whose body is [{}] throws a [TypeError] with the loading flag
    still set; one whose first artifact has no [base64] raises no error
    at all. *)
Theorem generate_decode_failure_keeps_loading :
  (forall j st,
     let r := run (handleGenerateImage (FetchResolved (mkResponse false j))) st in
     fst r = Thrown (JsError non_200_message) /\
     isLoading (app (snd r)) = false) /\
  (let r := run (handleGenerateImage (FetchResolved empty_object_response))
              empty_state in
   fst r = Thrown TypeError /\ isLoading (app (snd r)) = true) /\
  (let r := run (handleGenerateImage (FetchResolved no_base64_response))
              empty_state in
   fst r = Returned tt).
Proof.
  split; [|split].
  - intros j st. rewrite generate_non_success. now split.
  - now split.
  - reflexivity.
Qed.

(** C7 fails as stated: a success response whose first artifact has no
    [base64] field does not make the handler fail; it returns and stores
    an image. *)
Lemma generate_accepts_missing_base64 :
  has_defect MissingBase64 no_base64_response /\
  fst (run (handleGenerateImage (FetchResolved no_base64_response)) empty_state)
  = Returned tt /\
  generatedImage
    (app (snd (run (handleGenerateImage (FetchResolved no_base64_response))
                 empty_state)))
  = Some (js "data:image/png;base64,undefined").
Proof.
  split; [|split; reflexivity].
  split; [reflexivity|].
  exists [(js "artifacts", VArr [VObj [(js "seed", VNum (js "1"))]])],
    [(js "seed", VNum (js "1"))], [].
  repeat split.
Qed.

(** C7, amended: a non-success status makes the handler throw an
    [Error] and store no image; a success body without [artifacts] or
    with an empty [artifacts] makes it throw a [TypeError] and store no
    image; a first artifact without [base64] is not rejected: the handler
    returns and stores the data URI of the text [undefined]. *)
Theorem generate_outcome_by_defect (d : Defect) (response : Response)
    (st : AppState) :
  has_defect d response ->
  let r := run (handleGenerateImage (FetchResolved response)) st in
  match d with
  | NonSuccessStatus =>
      fst r = Thrown (JsError non_200_message) /\
      generatedImage (app (snd r)) = generatedImage st /\
      set_generated_image_calls (trace (snd r)) = []
  | MissingArtifacts | EmptyArtifacts =>
      fst r = Thrown TypeError /\
      generatedImage (app (snd r)) = generatedImage st /\
      set_generated_image_calls (trace (snd r)) = []
  | MissingBase64 =>
      fst r = Returned tt /\
      generatedImage (app (snd r)) = Some (data_uri_png ++ js "undefined")
  end.
Proof.
  destruct response as [o j].
  destruct d; simpl; intros H.
  - subst o. rewrite generate_non_success. now repeat split.
  - destruct H as (-> & fields & -> & H).
    rewrite (generate_no_artifacts fields st H). now repeat split.
  - destruct H as (-> & fields & -> & H).
    rewrite (generate_empty_artifacts fields st H). now repeat split.
  - destruct H as (-> & fields & first & others & -> & H1 & H2).
    rewrite (generate_no_base64 fields first others st H1 H2). now split.
Qed.

Lemma generate_outcome_by_defect_witness :
  has_defect EmptyArtifacts
    (mkResponse true (Some (VObj [(js "artifacts", VArr [])]))) /\
  fst (run (handleGenerateImage
              (FetchResolved
                 (mkResponse true (Some (VObj [(js "artifacts", VArr [])])))))
         empty_state)
  = Thrown TypeError.
Proof.
  assert (H : has_defect EmptyArtifacts
                (mkResponse true (Some (VObj [(js "artifacts", VArr [])])))).
  { split; [reflexivity|]. exists [(js "artifacts", VArr [])].
    split; reflexivity. }
  split; [exact H|].
  exact (proj1 (generate_outcome_by_defect EmptyArtifacts _ empty_state H)).
Defined.

(** ** handleSaveImage *)

Lemma strip_prefix_app (p r : jsstring) : strip_prefix p (p ++ r) = Some r.
Proof.
  induction p as [|c p IH]; [now destruct r|].
  simpl. now rewrite N.eqb_refl.
Qed.


Lemma drop_word_app (w r : jsstring) :
  forallb is_word w = true -> starts_with_word r = false ->
  drop_word (w ++ r) = r.
Proof.
  intros Hw Hr. induction w as [|c w IH]; simpl in *.
  - destruct r as [|d r]; [reflexivity|]. simpl in *. now rewrite Hr.
  - apply andb_true_iff in Hw as [Hc Hw]. rewrite Hc. now apply IH.
Qed.


(** A prefix [data:image/<subtype>;base64,] whose subtype is a run of
    word characters is cut off. *)
Lemma strip_data_uri_present (subtype payload : jsstring) :
  subtype <> [] -> forallb is_word subtype = true ->
  strip_data_uri (js "data:image/" ++ subtype ++ js ";base64," ++ payload)
  = payload.
Proof.
  intros Hne Hw. unfold strip_data_uri. rewrite strip_prefix_app.
  assert (Hst : starts_with_word (subtype ++ js ";base64," ++ payload) = true).
  { destruct subtype as [|c u]; [congruence|].
    simpl in Hw. now apply andb_true_iff in Hw as [Hc _]. }
  rewrite Hst, drop_word_app; [|exact Hw|reflexivity].
  now rewrite strip_prefix_app.
Qed.



Lemma strip_data_uri_png (s : jsstring) : strip_data_uri (data_uri_png ++ s) = s.
Proof.
  apply (strip_data_uri_present (js "png") s); [discriminate|reflexivity].
Qed.




(** C6 fails as stated for an image whose payload is not base64: the
    state the generate flow leaves after a response without [base64]
    holds an image, and saving it throws and uploads nothing. *)
Lemma save_throws_on_undecodable_image :
  app (snd (run (handleGenerateImage (FetchResolved no_base64_response))
              (mkAppState None false [] (js "a red fox"))))
  = undecodable_state /\
  generatedImage undecodable_state = Some (js "data:image/png;base64,undefined") /\
  fst (run (handleSaveImage (mkUploadResponse None)) undecodable_state)
  = Thrown InvalidCharacterError /\
  uploads (trace (snd (run (handleSaveImage (mkUploadResponse None))
                         undecodable_state)))
  = [].
Proof. repeat split; vm_compute; reflexivity. Qed.

(** C6, amended: without an image the save flow does nothing. With one,
    take as payload what is left of it after the prefix step (for the
    image the generate flow stores, what follows
    ["data:image/png;base64,"]). When [atob] decodes the payload, the
    flow sends one upload, keyed by the sanitized prompt, with the bytes
    of the decoded text and the content type [image/png], logs the
    outcome of the upload and returns whether or not the upload failed.
    When [atob] throws, the flow throws the same to its caller and
    uploads nothing. The state is left as it was. The prompt
    ["a red fox"] gives the key ["a_red_fox"]. *)
Theorem save_uploads_decoded_payload (st : AppState) (answer : UploadResponse) :
  let r := run (handleSaveImage answer) st in
  (generatedImage st = None \/ generatedImage st = Some [] ->
   r = (Returned tt, mkWorld st [])) /\
  (forall image binary,
     generatedImage st = Some image -> image <> [] ->
     atob (strip_data_uri image) = Returned binary ->
     r = (Returned tt,
          mkWorld st
            [Upload (js "generate-image") (sanitizeFileName (prompt st))
               (map (fun c => c mod 256) binary) (js "image/png");
             match upload_error answer with
             | Some _ => ConsoleError (js "Error uploading image:")
             | None => ConsoleLog (js "Image uploaded successfully")
             end])) /\
  (forall image e,
     generatedImage st = Some image -> image <> [] ->
     atob (strip_data_uri image) = Thrown e ->
     r = (Thrown e, mkWorld st [])) /\
  (forall payload, strip_data_uri (js "data:image/png;base64," ++ payload) = payload) /\
  sanitizeFileName (js "a red fox") = js "a_red_fox".
Proof.
  intros r. subst r.
  assert (Hrun : forall image, generatedImage st = Some image -> image <> [] ->
            run (handleSaveImage answer) st
            = match atob (strip_data_uri image) with
              | Returned binary =>
                  (Returned tt,
                   mkWorld st
                     [Upload bucket (sanitizeFileName (prompt st))
                        (map (fun c => c mod 256) binary) (js "image/png");
                      match upload_error answer with
                      | Some _ => ConsoleError (js "Error uploading image:")
                      | None => ConsoleLog (js "Image uploaded successfully")
                      end])
              | Thrown e => (Thrown e, mkWorld st [])
              end).
  { intros image Hg Hne. unfold run, handleSaveImage, decode_image. mrun.
    rewrite Hg. destruct image as [|c image]; [congruence|].
    destruct (atob (strip_data_uri (c :: image))) as [binary|e]; [|reflexivity].
    now destruct (upload_error answer). }
  split; [|split; [|split; [|split]]].
  - unfold run, handleSaveImage. mrun. now intros [-> | ->].
  - intros image binary Hg Hne Ha. now rewrite (Hrun image Hg Hne), Ha.
  - intros image e Hg Hne Ha. now rewrite (Hrun image Hg Hne), Ha.
  - apply strip_data_uri_png.
  - reflexivity.
Qed.

Lemma save_uploads_decoded_payload_witness :
  atob (strip_data_uri (js "data:image/png;base64,aGVsbG8=")) = Returned (js "hello") /\
  run (handleSaveImage (mkUploadResponse (Some (storage_error (js "Duplicate")))))
    hello_state
  = (Returned tt,
     mkWorld hello_state
       [Upload (js "generate-image") (js "a_red_fox") (js "hello") (js "image/png");
        ConsoleError (js "Error uploading image:")]).
Proof.
  assert (Ha : atob (strip_data_uri (js "data:image/png;base64,aGVsbG8="))
               = Returned (js "hello")) by (vm_compute; reflexivity).
  assert (Hne : js "data:image/png;base64,aGVsbG8=" <> []) by discriminate.
  split; [exact Ha|].
  destruct (save_uploads_decoded_payload hello_state
              (mkUploadResponse (Some (storage_error (js "Duplicate")))))
    as (_ & Hup & _).
  exact (Hup (js "data:image/png;base64,aGVsbG8=") (js "hello") eq_refl Hne Ha).
Defined.

(** The end-to-end run of the specification: with the prompt
    ["a red fox"], generating from a response with one artifact and then
    saving sends one upload, keyed ["a_red_fox"], typed [image/png]. *)
Example red_fox_end_to_end :
  let st := mkAppState None false [] (js "a red fox") in
  let generated :=
    app (snd (run (handleGenerateImage (FetchResolved one_artifact_response)) st)) in
  generatedImage generated = Some (js "data:image/png;base64,aGVsbG8=") /\
  run (handleSaveImage (mkUploadResponse None)) generated
  = (Returned tt,
     mkWorld generated
       [Upload bucket (js "a_red_fox") (js "hello") (js "image/png");
        ConsoleLog (js "Image uploaded successfully")]).
Proof. split; vm_compute; reflexivity. Qed.

(** * More about the code *)

(** ** The sanitizer: alphabet, empty keys, fixed points *)

Lemma all_key_units_Forall (s : jsstring) :
  all_key_units s = true ->
  Forall (fun c => is_low_alnum c = true \/ c = underscore) s.
Proof.
  unfold all_key_units. intros H. apply Forall_forall. intros c Hc.
  rewrite forallb_forall in H. apply list_elem_of_In, H in Hc.
  apply orb_true_iff in Hc as [Hc|Hc]; [now left|right; now apply is_us_eq].
Qed.

(** X1: Every code unit of a sanitized name is a lower-case letter, a digit
    or an underscore, and there are at most 50 of them. *)
Theorem sanitize_alphabet_and_length (x : jsstring) :
  Forall (fun c => is_low_alnum c = true \/ c = underscore) (sanitizeFileName x) /\
  (length (sanitizeFileName x) <= 50)%nat.
Proof.
  split; [apply all_key_units_Forall, sanitize_key_units|apply sanitize_length].
Qed.

Lemma to_lower_alnum_i (c : N) : is_alnum_i (to_lower_unit c) = is_alnum_i c.
Proof.
  unfold to_lower_unit. destruct (is_upper c) eqn:Hu; [|reflexivity].
  unfold is_alnum_i. rewrite Hu.
  replace (is_lower (c + 32)) with true; [now rewrite !orb_true_r|].
  unfold is_upper, is_lower in *.
  apply andb_true_iff in Hu as [H1 H2]. apply N.leb_le in H1, H2.
  symmetry. apply andb_true_iff. split; apply N.leb_le; lia.
Qed.

Lemma letters_replace_non_alnum (s : jsstring) :
  letters_and_digits (replace_non_alnum s) = letters_and_digits s.
Proof.
  unfold letters_and_digits.
  induction s as [|c t IH]; [reflexivity|]. simpl.
  destruct (is_alnum_i c) eqn:Hc; simpl; [now rewrite Hc, IH|].
  change (is_alnum_i underscore) with false. exact IH.
Qed.

Lemma us_not_alnum (c : N) : is_us c = true -> is_alnum_i c = false.
Proof. unit_cases. Qed.

Lemma letters_runs (b : bool) (s : jsstring) :
  letters_and_digits (replace_underscore_runs_from b s) = letters_and_digits s.
Proof.
  unfold letters_and_digits. revert b.
  induction s as [|c t IH]; intros b; [reflexivity|]. simpl.
  destruct (is_us c) eqn:Hus.
  - rewrite (us_not_alnum c Hus). destruct b; simpl; apply IH.
  - simpl. now rewrite IH.
Qed.

Lemma letters_edge (a : bool) (s : jsstring) :
  letters_and_digits (replace_edge_underscores_from a s) = letters_and_digits s.
Proof.
  unfold letters_and_digits. revert a.
  induction s as [|c t IH]; intros a; [reflexivity|]. simpl.
  destruct (is_us c) eqn:Hus; simpl.
  - rewrite (us_not_alnum c Hus).
    destruct (a || _); simpl; [apply IH|].
    rewrite (us_not_alnum c Hus). apply IH.
  - now rewrite IH.
Qed.

Lemma letters_lower (s : jsstring) :
  letters_and_digits (toLowerCase s) = toLowerCase (letters_and_digits s).
Proof.
  unfold letters_and_digits, toLowerCase.
  induction s as [|c t IH]; [reflexivity|]. simpl.
  rewrite to_lower_alnum_i. destruct (is_alnum_i c); simpl; now rewrite IH.
Qed.

Lemma letters_normalized (x : jsstring) :
  letters_and_digits (normalized x) = toLowerCase (letters_and_digits x).
Proof.
  unfold normalized, replace_edge_underscores, replace_underscore_runs.
  now rewrite letters_lower, letters_edge, letters_runs, letters_replace_non_alnum.
Qed.

(** X2: The sanitizer keeps the letters and digits of its input, in order
    and lower-cased, up to where truncation cuts; without truncation it
    keeps them all. *)
Theorem sanitize_keeps_letters_and_digits (x : jsstring) :
  letters_and_digits (sanitizeFileName x)
    `prefix_of` toLowerCase (letters_and_digits x) /\
  ((length (normalized x) <= 50)%nat ->
   letters_and_digits (sanitizeFileName x) = toLowerCase (letters_and_digits x)).
Proof.
  rewrite <- letters_normalized. unfold sanitizeFileName, slice_0_50. split.
  - exists (letters_and_digits (drop 50 (normalized x))).
    unfold letters_and_digits. rewrite <- List.filter_app. now rewrite take_drop.
  - intros Hlen. now rewrite take_ge.
Qed.

Lemma sanitize_keeps_letters_and_digits_witness :
  (length (normalized (js "My Sunset! Photo")) <= 50)%nat /\
  letters_and_digits (sanitizeFileName (js "My Sunset! Photo"))
  = js "mysunsetphoto".
Proof.
  assert (H : (length (normalized (js "My Sunset! Photo")) <= 50)%nat).
  { vm_compute. lia. }
  split; [exact H|].
  rewrite (proj2 (sanitize_keeps_letters_and_digits (js "My Sunset! Photo")) H).
  reflexivity.
Defined.

Lemma no_letters_forallb (s : jsstring) :
  letters_and_digits s = [] <-> forallb (fun c => negb (is_alnum_i c)) s = true.
Proof.
  unfold letters_and_digits.
  induction s as [|c t IH]; simpl; [tauto|].
  destruct (is_alnum_i c); simpl; [split; discriminate|exact IH].
Qed.

Lemma toLowerCase_nil (s : jsstring) : toLowerCase s = [] <-> s = [].
Proof. destruct s; simpl; split; congruence. Qed.

Lemma normalized_nil (x : jsstring) :
  normalized x = [] <-> letters_and_digits x = [].
Proof.
  split.
  - intros H. apply toLowerCase_nil. rewrite <- letters_normalized, H.
    reflexivity.
  - intros H.
    pose proof (letters_normalized x) as Hl. rewrite H in Hl. simpl in Hl.
    pose proof (normalized_key_units x) as Hk.
    pose proof (normalized_start x) as Hs.
    destruct (normalized x) as [|c t]; [reflexivity|].
    unfold all_key_units in Hk. simpl in Hk, Hs.
    apply andb_true_iff in Hk as [Hc _].
    pose proof (key_unit_cases c Hc Hs) as Hlow.
    unfold letters_and_digits in Hl. simpl in Hl.
    assert (Ha : is_alnum_i c = true) by (clear - Hlow; unit_cases).
    rewrite Ha in Hl. discriminate.
Qed.

Lemma sanitize_nil_iff (x : jsstring) :
  sanitizeFileName x = [] <-> forallb (fun c => negb (is_alnum_i c)) x = true.
Proof.
  rewrite <- no_letters_forallb, <- normalized_nil.
  unfold sanitizeFileName, slice_0_50.
  destruct (normalized x); simpl; split; congruence.
Qed.

(** X3: The sanitized name is empty exactly when the input has no ASCII
    letter and no digit: a prompt written without them (only symbols, or
    only characters outside ASCII) gets the empty key. *)
Theorem sanitize_empty_iff_no_letter_or_digit (x : jsstring) :
  sanitizeFileName x = [] <-> forallb (fun c => negb (is_alnum_i c)) x = true.
Proof.
  rewrite <- no_letters_forallb, <- normalized_nil.
  unfold sanitizeFileName, slice_0_50.
  destruct (normalized x) as [|c t]; simpl; split; congruence.
Qed.

Lemma key_rest_separators (s : jsstring) :
  key_rest s = true ->
  all_key_units s = true /\ has_double_us s = false /\ ends_with_us s = false.
Proof.
  unfold all_key_units.
  induction s as [|c t IH]; intros H; [now repeat split|].
  simpl in H. destruct (is_low_alnum c) eqn:Hlow.
  - destruct (IH H) as (Ha & Hd & He). simpl.
    rewrite Hlow, (low_alnum_not_us c Hlow), Ha, Hd. repeat split.
    destruct t as [|d t'].
    + unfold ends_with_us. simpl. now apply low_alnum_not_us.
    + now rewrite ends_with_us_cons.
  - destruct (is_us c) eqn:Hus; [|discriminate].
    destruct t as [|d t']; [discriminate|].
    apply andb_true_iff in H as [Hd H].
    destruct (IH H) as (Ha & Hdd & He).
    split; [|split].
    + change (forallb (fun c => is_low_alnum c || is_us c) (c :: d :: t'))
        with ((is_low_alnum c || is_us c)
              && forallb (fun c => is_low_alnum c || is_us c) (d :: t')).
      now rewrite Ha, Hus, orb_true_r.
    + change (has_double_us (c :: d :: t'))
        with ((is_us c && is_us d) || has_double_us (d :: t')).
      now rewrite Hdd, (low_alnum_not_us d Hd), andb_false_r.
    + now rewrite ends_with_us_cons.
Qed.

Lemma key_patternb_separators (s : jsstring) :
  key_patternb s = true ->
  all_key_units s = true /\ starts_with_us s = false /\
  has_double_us s = false /\ ends_with_us s = false.
Proof.
  destruct s as [|c t]; [discriminate|]. simpl. intros H.
  apply andb_true_iff in H as [Hc Ht].
  assert (Hr : key_rest (c :: t) = true) by (simpl; now rewrite Hc).
  destruct (key_rest_separators _ Hr) as (Ha & Hd & He).
  repeat split; auto. now apply low_alnum_not_us.
Qed.

Lemma sanitize_of_separators (s : jsstring) :
  all_key_units s = true -> starts_with_us s = false ->
  has_double_us s = false -> ends_with_us s = false ->
  (length s <= 50)%nat -> sanitizeFileName s = s.
Proof.
  intros Ha Hs Hd He Hlen.
  unfold sanitizeFileName, normalized, slice_0_50, replace_underscore_runs.
  rewrite (replace_non_alnum_id s Ha).
  rewrite (runs_id false s Hd) by discriminate.
  rewrite (edge_outer_inner s Hs), (edge_inner_id s He).
  rewrite (toLowerCase_id s Ha). now apply take_ge.
Qed.

(** X4: A string that already is a key, one that matches
    [^[a-z0-9]+(_[a-z0-9]+)*$] with at most 50 code units, is left as it
    is. *)
Theorem sanitize_fixes_keys (s : jsstring) :
  key_pattern s -> (length s <= 50)%nat -> sanitizeFileName s = s.
Proof.
  intros Hk Hlen. apply key_patternb_spec, key_patternb_separators in Hk.
  destruct Hk as (Ha & Hs & Hd & He). now apply sanitize_of_separators.
Qed.

Lemma sanitize_fixes_keys_witness :
  key_pattern (js "a_red_fox") /\
  sanitizeFileName (js "a_red_fox") = js "a_red_fox".
Proof.
  assert (Hk : key_pattern (js "a_red_fox")).
  { apply key_patternb_spec. reflexivity. }
  split; [exact Hk|].
  apply (sanitize_fixes_keys (js "a_red_fox") Hk). vm_compute. lia.
Defined.

Lemma edge_inner_snoc (w : jsstring) :
  ends_with_us w = false ->
  replace_edge_underscores_from false (w ++ [underscore]) = w.
Proof.
  induction w as [|c t IH]; intros He; [reflexivity|].
  change ((c :: t) ++ [underscore]) with (c :: (t ++ [underscore])).
  assert (Hm : match t ++ [underscore] with [] => true | _ :: _ => false end
               = false) by now destruct t.
  cbn [replace_edge_underscores_from]. rewrite Hm. cbn [orb].
  rewrite andb_false_r. f_equal. apply IH.
  destruct t as [|e t']; [reflexivity|].
  now rewrite ends_with_us_cons in He.
Qed.

(** X5: A second pass always yields a proper key: [sanitize(sanitize(x))] is
    empty or matches the pattern, and every further pass leaves it as it
    is. *)
Theorem sanitize_second_pass_is_a_key (x : jsstring) :
  (sanitizeFileName (sanitizeFileName x) = [] \/
   key_pattern (sanitizeFileName (sanitizeFileName x))) /\
  sanitizeFileName (sanitizeFileName (sanitizeFileName x))
  = sanitizeFileName (sanitizeFileName x).
Proof.
  pose proof (sanitize_length (sanitizeFileName x)) as Hlen.
  assert (H : sanitizeFileName (sanitizeFileName x) = [] \/
              key_patternb (sanitizeFileName (sanitizeFileName x)) = true).
  { rewrite sanitize_twice.
    destruct (prefix_shape (sanitizeFileName x) (sanitize_key_units x)
                (sanitize_start x) (sanitize_no_double x))
      as [H | [H | (w & Hw & Hk)]].
    - left. now rewrite H.
    - right. destruct (key_patternb_separators _ H) as (_ & _ & _ & He).
      now rewrite edge_inner_id.
    - right. destruct (key_patternb_separators _ Hk) as (_ & _ & _ & He).
      now rewrite Hw, edge_inner_snoc. }
  destruct H as [H|H].
  - split; [now left|]. now rewrite H.
  - split; [right; now apply key_patternb_spec|].
    destruct (key_patternb_separators _ H) as (Ha & Hs & Hd & He).
    now apply sanitize_of_separators.
Qed.

Lemma lower_idem (c : N) : to_lower_unit (to_lower_unit c) = to_lower_unit c.
Proof. unit_cases. Qed.

Lemma lower_replaced (c : N) :
  (if is_alnum_i (to_lower_unit c) then to_lower_unit c else underscore)
  = to_lower_unit (if is_alnum_i c then c else underscore).
Proof.
  rewrite to_lower_alnum_i. now destruct (is_alnum_i c).
Qed.

Lemma lower_replace_non_alnum (s : jsstring) :
  replace_non_alnum (toLowerCase s) = toLowerCase (replace_non_alnum s).
Proof.
  unfold replace_non_alnum, toLowerCase.
  induction s as [|c t IH]; [reflexivity|]. simpl.
  now rewrite lower_replaced, IH.
Qed.

Lemma lower_us (c : N) : is_us c = true -> to_lower_unit c = underscore.
Proof. unit_cases. Qed.

Lemma lower_runs (b : bool) (s : jsstring) :
  replace_underscore_runs_from b (toLowerCase s)
  = toLowerCase (replace_underscore_runs_from b s).
Proof.
  unfold toLowerCase. revert b.
  induction s as [|c t IH]; intros b; [reflexivity|]. simpl.
  rewrite to_lower_keeps_us. destruct (is_us c); [destruct b|]; simpl;
    now rewrite IH.
Qed.

Lemma lower_edge (a : bool) (s : jsstring) :
  replace_edge_underscores_from a (toLowerCase s)
  = toLowerCase (replace_edge_underscores_from a s).
Proof.
  unfold toLowerCase. revert a.
  induction s as [|c t IH]; intros a; [reflexivity|]. simpl.
  rewrite to_lower_keeps_us.
  replace (match map to_lower_unit t with [] => true | _ :: _ => false end)
    with (match t with [] => true | _ :: _ => false end) by now destruct t.
  destruct (is_us c && (_ || _)); simpl; now rewrite IH.
Qed.

Lemma lower_lower (s : jsstring) : toLowerCase (toLowerCase s) = toLowerCase s.
Proof.
  unfold toLowerCase. rewrite map_map. apply map_ext. apply lower_idem.
Qed.

(** X6: The key does not see the case of ASCII letters: lower-casing the
    letters [A-Z] of a name before sanitizing changes nothing, so two
    names that differ only there get the same key. *)
Theorem sanitize_ignores_ascii_case (x y : jsstring) :
  sanitizeFileName (map to_lower_unit x) = sanitizeFileName x /\
  (map to_lower_unit x = map to_lower_unit y ->
   sanitizeFileName x = sanitizeFileName y).
Proof.
  assert (H : forall z, sanitizeFileName (map to_lower_unit z) = sanitizeFileName z).
  { intros z. change (map to_lower_unit z) with (toLowerCase z).
    unfold sanitizeFileName, normalized, replace_edge_underscores,
      replace_underscore_runs.
    now rewrite lower_replace_non_alnum, lower_runs, lower_edge, lower_lower. }
  split; [apply H|]. intros Hxy. now rewrite <- (H x), <- (H y), Hxy.
Qed.

Lemma sanitize_ignores_ascii_case_witness :
  map to_lower_unit (js "A Red FOX") = map to_lower_unit (js "a red fox") /\
  sanitizeFileName (js "A Red FOX") = sanitizeFileName (js "a red fox").
Proof.
  assert (H : map to_lower_unit (js "A Red FOX") = map to_lower_unit (js "a red fox"))
    by reflexivity.
  split; [exact H|].
  exact (proj2 (sanitize_ignores_ascii_case (js "A Red FOX") (js "a red fox")) H).
Defined.

(** ** fetchImages: entries, requests and the console *)

(** X7: For every listing, the placeholder included: once every request is
    answered, in whatever order, the gallery has one entry per element of
    the listing, and entry [i] is what the callback returns for element
    [i]: the empty string for the placeholder, for a failed resolution
    and for an answer without data, the signed URL otherwise. *)
Theorem gallery_entry_for_every_element (data : list FileObject)
    (sign : nat -> jsstring -> SignedUrlResponse) (arrivals : list nat)
    (st : AppState) :
  (forall i image, data !! i = Some image ->
                   is_placeholder image = false -> In i arrivals) ->
  let w := snd (run (fetchImages (mkListResponse (Some data) None) sign arrivals) st) in
  length (images (app w)) = length data /\
  forall i image, data !! i = Some image ->
    images (app w) !! i
    = Some (if is_placeholder image then []
            else match signed_error (sign i (name image)) with
                 | Some _ => []
                 | None =>
                     match signed_data (sign i (name image)) with
                     | Some d => signedUrl d
                     | None => []
                     end
                 end).
Proof.
  intros Hall w. subst w. rewrite fetchImages_run. simpl.
  rewrite (all_answered_true data arrivals Hall). simpl.
  split; [apply gallery_urls_length|].
  intros i image Hi. now rewrite gallery_urls_lookup, Hi.
Qed.

Lemma gallery_entry_for_every_element_witness :
  let w := snd (run (fetchImages
                       (mkListResponse
                          (Some (mkFileObject placeholder :: three_images)) None)
                       sign_but_1 [3%nat; 1%nat; 2%nat; 1%nat]) empty_state) in
  length (images (app w)) = 4%nat /\
  images (app w) !! 0%nat = Some [] /\
  images (app w) !! 3%nat = Some (js "https://cdn/c").
Proof.
  assert (Hall : forall i image,
             (mkFileObject placeholder :: three_images) !! i = Some image ->
             is_placeholder image = false ->
             In i [3%nat; 1%nat; 2%nat; 1%nat]).
  { intros [|[|[|[|i]]]] image Hi Hp; simpl in *; try tauto.
    - injection Hi as <-. discriminate.
    - discriminate. }
  destruct (gallery_entry_for_every_element
              (mkFileObject placeholder :: three_images) sign_but_1
              [3%nat; 1%nat; 2%nat; 1%nat] empty_state Hall) as [Hlen Hent].
  split; [exact Hlen|]. split.
  - exact (Hent 0%nat (mkFileObject placeholder) eq_refl).
  - exact (Hent 3%nat (mkFileObject (js "c")) eq_refl).
Defined.

Lemma signed_url_requests_app (t u : list Effect) :
  signed_url_requests (t ++ u) = signed_url_requests t ++ signed_url_requests u.
Proof.
  induction t as [|e t IH]; [reflexivity|].
  destruct e; simpl; now rewrite IH.
Qed.

Lemma signed_url_requests_requests (data : list FileObject) :
  signed_url_requests (requests data)
  = map (fun image => (bucket, name image, 60))
        (List.filter (fun image => negb (is_placeholder image)) data).
Proof.
  induction data as [|image rest IH]; [reflexivity|].
  unfold requests in *. simpl. rewrite signed_url_requests_app, IH.
  now destruct (is_placeholder image).
Qed.

Lemma signed_url_requests_logs (sign : nat -> jsstring -> SignedUrlResponse)
    (data : list FileObject) (arrivals seen : list nat) :
  signed_url_requests (completion_logs sign data seen arrivals) = [].
Proof.
  revert seen. induction arrivals as [|i rest IH]; intros seen; [reflexivity|].
  simpl. rewrite signed_url_requests_app, IH, app_nil_r.
  unfold completion_log. destruct (data !! i) as [image|]; [|reflexivity].
  destruct (answered seen i image); [reflexivity|].
  now destruct (signed_error (sign i (name image))).
Qed.

(** X8: The requests for signed URLs a refresh sends: one for each element of
    the listing that is not the placeholder, in the order of the listing,
    to the bucket [generate-image] with a time-to-live of 60, all of them
    before any answer is looked at; none for the placeholder, and none at
    all when the listing failed or carried no data. *)
Theorem refresh_requests_one_url_per_image (listing : ListResponse)
    (sign : nat -> jsstring -> SignedUrlResponse) (arrivals : list nat)
    (st : AppState) :
  signed_url_requests (trace (snd (run (fetchImages listing sign arrivals) st)))
  = match list_error listing, list_data listing with
    | None, Some data =>
        map (fun image => (js "generate-image", name image, 60))
            (List.filter (fun image => negb (is_placeholder image)) data)
    | _, _ => []
    end.
Proof.
  rewrite fetchImages_run.
  destruct (list_error listing) as [e|]; [reflexivity|].
  destruct (list_data listing) as [data|]; [|reflexivity].
  destruct (all_answered data arrivals); simpl;
    rewrite !signed_url_requests_app, signed_url_requests_requests,
      signed_url_requests_logs; simpl; now rewrite ?app_nil_r.
Qed.

(** X9: A refresh never throws, and of the four cells of the state it can
    change [images] only. *)
Theorem refresh_touches_only_images (listing : ListResponse)
    (sign : nat -> jsstring -> SignedUrlResponse) (arrivals : list nat)
    (st : AppState) :
  let r := run (fetchImages listing sign arrivals) st in
  fst r = Returned tt /\
  generatedImage (app (snd r)) = generatedImage st /\
  isLoading (app (snd r)) = isLoading st /\
  prompt (app (snd r)) = prompt st.
Proof.
  intros r. subst r. rewrite fetchImages_run.
  destruct (list_error listing) as [e|]; [now repeat split|].
  destruct (list_data listing) as [data|]; [|now repeat split].
  destruct (all_answered data arrivals); now repeat split.
Qed.

Lemma requests_placeholders (data : list FileObject) :
  Forall (fun image => is_placeholder image = true) data -> requests data = [].
Proof.
  induction 1 as [|image rest Hp _ IH]; [reflexivity|].
  unfold requests in *. simpl. now rewrite Hp, IH.
Qed.

Lemma imap_placeholders {B} (f : nat -> FileObject -> B) (b : B)
    (data : list FileObject) :
  Forall (fun image => is_placeholder image = true) data ->
  (forall i image, is_placeholder image = true -> f i image = b) ->
  imap f data = replicate (length data) b.
Proof.
  intros H. revert f. induction H as [|image rest Hp _ IH]; intros f Hf;
    [reflexivity|].
  cbn. rewrite (Hf 0%nat image Hp). f_equal. apply IH.
  intros i x Hx. now apply Hf.
Qed.

Lemma forallb_id_replicate (n : nat) : forallb id (replicate n true) = true.
Proof. induction n; simpl; auto. Qed.

(** X10: A listing that holds nothing but placeholders, the empty listing
    among them, sends no request and needs no answer: the gallery is
    replaced at once, by one empty string per placeholder. *)
Theorem placeholder_only_listing_sets_gallery_at_once (data : list FileObject)
    (sign : nat -> jsstring -> SignedUrlResponse) (st : AppState) :
  Forall (fun image => is_placeholder image = true) data ->
  run (fetchImages (mkListResponse (Some data) None) sign []) st
  = (Returned tt,
     mkWorld (mkAppState (generatedImage st) (isLoading st)
                (replicate (length data) []) (prompt st))
       [StorageList bucket; SetImages (replicate (length data) [])]).
Proof.
  intros Hp. rewrite fetchImages_run. simpl.
  assert (Ha : all_answered data [] = true).
  { unfold all_answered.
    rewrite (imap_placeholders (answered []) true data Hp).
    - apply forallb_id_replicate.
    - intros i image Hi. unfold answered. now rewrite Hi. }
  assert (Hg : gallery_urls sign data = replicate (length data) []).
  { unfold gallery_urls. apply imap_placeholders; [exact Hp|].
    intros i image Hi. unfold entry_url. now rewrite Hi. }
  now rewrite Ha, Hg, (requests_placeholders data Hp).
Qed.

Lemma placeholder_only_listing_sets_gallery_at_once_witness :
  images (app (snd (run (fetchImages
                           (mkListResponse (Some [mkFileObject placeholder]) None)
                           sign_all []) empty_state)))
  = [ [] ].
Proof.
  assert (Hp : Forall (fun image => is_placeholder image = true)
                 [mkFileObject placeholder]).
  { repeat constructor. }
  now rewrite (placeholder_only_listing_sets_gallery_at_once
                 [mkFileObject placeholder] sign_all empty_state Hp).
Defined.

Lemma console_errors_app (t u : list Effect) :
  console_errors (t ++ u) = console_errors t ++ console_errors u.
Proof.
  induction t as [|e t IH]; [reflexivity|].
  destruct e; simpl; now rewrite IH.
Qed.

Lemma console_errors_requests (data : list FileObject) :
  console_errors (requests data) = [].
Proof.
  induction data as [|image rest IH]; [reflexivity|].
  unfold requests in *. simpl. rewrite console_errors_app, IH.
  now destruct (is_placeholder image).
Qed.

Lemma completion_log_errors (sign : nat -> jsstring -> SignedUrlResponse)
    (data : list FileObject) (seen : list nat) (a : nat) :
  console_errors (completion_log sign data seen a)
  = if resolution_fails sign data a && negb (existsb (Nat.eqb a) seen)
    then [js "Error creating signed URL:"] else [].
Proof.
  unfold completion_log, resolution_fails, answered.
  destruct (data !! a) as [image|]; [|reflexivity].
  destruct (is_placeholder image); [reflexivity|]. simpl.
  destruct (existsb (Nat.eqb a) seen); simpl.
  - now destruct (signed_error (sign a (name image))).
  - now destruct (signed_error (sign a (name image))).
Qed.

Lemma filter_split_length (P Q R : nat -> bool) (l : list nat) :
  (forall i, P i = R i || Q i) -> (forall i, R i && Q i = false) ->
  length (List.filter P l)
  = (length (List.filter R l) + length (List.filter Q l))%nat.
Proof.
  intros HP HRQ. induction l as [|i l IH]; [reflexivity|]. simpl.
  rewrite HP. specialize (HRQ i).
  destruct (R i), (Q i); simpl in *; try discriminate; lia.
Qed.

Lemma filter_none (P : nat -> bool) (l : list nat) :
  (forall i, P i = false) -> List.filter P l = [].
Proof.
  intros HP. induction l as [|i l IH]; [reflexivity|]. simpl.
  now rewrite HP.
Qed.

Lemma filter_one_of_seq (a : nat) (b : bool) (s n : nat) :
  length (List.filter (fun i => Nat.eqb i a && b) (seq s n))
  = if b && (s <=? a)%nat && (a <? s + n)%nat then 1%nat else 0%nat.
Proof.
  revert s. induction n as [|n IH]; intros s.
  - simpl. replace (a <? s + 0)%nat with (a <? s)%nat by (f_equal; lia).
    destruct b, (Nat.leb_spec s a), (Nat.ltb_spec a s); simpl; auto; lia.
  - cbn [seq List.filter].
    destruct (Nat.eqb_spec s a) as [->|Hne]; destruct b;
      cbn [andb length]; rewrite IH; cbn [andb];
      repeat match goal with
             | |- context [(?x <=? ?y)%nat] => destruct (Nat.leb_spec x y)
             | |- context [(?x <? ?y)%nat] => destruct (Nat.ltb_spec x y)
             end; cbn [andb]; lia.
Qed.

Lemma resolution_fails_lt (sign : nat -> jsstring -> SignedUrlResponse)
    (data : list FileObject) (a : nat) :
  resolution_fails sign data a = true -> (a < length data)%nat.
Proof.
  unfold resolution_fails. destruct (data !! a) eqn:Ha; [|discriminate].
  intros _. now apply lookup_lt_Some in Ha.
Qed.

Lemma failures_step (sign : nat -> jsstring -> SignedUrlResponse)
    (data : list FileObject) (seen rest : list nat) (a : nat) :
  length (List.filter
            (fun i => resolution_fails sign data i
                      && existsb (Nat.eqb i) (a :: rest)
                      && negb (existsb (Nat.eqb i) seen))
            (seq 0 (length data)))
  = ((if resolution_fails sign data a && negb (existsb (Nat.eqb a) seen)
      then 1 else 0)
     + length (List.filter
                 (fun i => resolution_fails sign data i
                           && existsb (Nat.eqb i) rest
                           && negb (existsb (Nat.eqb i) (seen ++ [a])))
                 (seq 0 (length data))))%nat.
Proof.
  rewrite (filter_split_length _
             (fun i => resolution_fails sign data i
                       && existsb (Nat.eqb i) rest
                       && negb (existsb (Nat.eqb i) (seen ++ [a])))
             (fun i => Nat.eqb i a
                       && (resolution_fails sign data a
                           && negb (existsb (Nat.eqb a) seen)))).
  - f_equal. rewrite filter_one_of_seq. simpl.
    destruct (resolution_fails sign data a) eqn:Hf; [|reflexivity].
    apply resolution_fails_lt in Hf.
    destruct (negb (existsb (Nat.eqb a) seen)); [|reflexivity]. simpl.
    destruct (Nat.ltb_spec a (length data)); [reflexivity|lia].
  - intros i. rewrite existsb_app. simpl.
    destruct (Nat.eqb_spec i a) as [->|Hne]; simpl.
    + rewrite orb_true_r, !andb_false_r, orb_false_r. now rewrite andb_true_r.
    + now rewrite !orb_false_r.
  - intros i. rewrite existsb_app. simpl.
    destruct (Nat.eqb_spec i a) as [->|Hne]; simpl; [|reflexivity].
    now rewrite orb_true_r, !andb_false_r.
Qed.

Lemma completion_logs_errors (sign : nat -> jsstring -> SignedUrlResponse)
    (data : list FileObject) (arrivals seen : list nat) :
  console_errors (completion_logs sign data seen arrivals)
  = replicate
      (length (List.filter
                 (fun i => resolution_fails sign data i
                           && existsb (Nat.eqb i) arrivals
                           && negb (existsb (Nat.eqb i) seen))
                 (seq 0 (length data))))
      (js "Error creating signed URL:").
Proof.
  revert seen. induction arrivals as [|a rest IH]; intros seen.
  - simpl. rewrite filter_none; [reflexivity|].
    intros i. now rewrite andb_false_r.
  - cbn [completion_logs]. rewrite console_errors_app, completion_log_errors, IH.
    rewrite failures_step, replicate_add.
    now destruct (resolution_fails sign data a && negb (existsb (Nat.eqb a) seen)).
Qed.

(** X11: The console shows one line [Error creating signed URL:] for each
    request that failed and whose answer has arrived, and nothing else:
    an answer that arrives twice, or for an index that was never
    requested, adds no line. *)
Theorem each_failed_resolution_is_logged_once (data : list FileObject)
    (sign : nat -> jsstring -> SignedUrlResponse) (arrivals : list nat)
    (st : AppState) :
  console_errors
    (trace (snd (run (fetchImages (mkListResponse (Some data) None) sign arrivals) st)))
  = replicate
      (length (List.filter
                 (fun i => resolution_fails sign data i
                           && existsb (Nat.eqb i) arrivals)
                 (seq 0 (length data))))
      (js "Error creating signed URL:").
Proof.
  rewrite fetchImages_run. simpl.
  assert (H : console_errors
                (requests data ++ completion_logs sign data [] arrivals)
              = replicate
                  (length (List.filter
                             (fun i => resolution_fails sign data i
                                       && existsb (Nat.eqb i) arrivals)
                             (seq 0 (length data))))
                  (js "Error creating signed URL:")).
  { rewrite console_errors_app, console_errors_requests,
      completion_logs_errors. simpl. f_equal. f_equal.
    apply List.filter_ext. intros i. now rewrite andb_true_r. }
  destruct (all_answered data arrivals); simpl; [|exact H].
  rewrite app_assoc, console_errors_app, H. simpl. now rewrite app_nil_r.
Qed.

(** ** handleGenerateImage: every outcome *)

Lemma first_base64_throws (body : jsval) (e : exn) :
  first_base64 body = Thrown e -> e = TypeError.
Proof.
  unfold first_base64.
  destruct body as [| |b|r|s|elems|fields]; simpl; try congruence.
  destruct (lookup_field (js "artifacts") fields)
    as [| |b|r|s|[|first others]|fs] eqn:Ha; simpl; try congruence.
  - destruct s; simpl; congruence.
  - destruct first; simpl; congruence.
  - destruct (lookup_field (js "0") fs); simpl; congruence.
Qed.

Lemma ToString_throws (v : jsval) :
  forall e, ToString v = Thrown e -> e = TypeError.
Proof.
  induction v as [| |b|r|s|elems IHe|fields] using jsval_elems_ind; simpl;
    try (intros e H; discriminate H).
  - match goal with
    | |- forall e, ?join true elems = Thrown e -> _ =>
        enough (Hj : forall first e, join first elems = Thrown e -> e = TypeError)
          by (intros e; apply Hj)
    end.
    induction IHe as [|x t Hx _ IHt]; intros first e; simpl;
      [intros H; discriminate H|].
    assert (Hx' : forall y, match x with
                            | VUndefined | VNull => Returned []
                            | _ => ToString x
                            end = Thrown y -> y = TypeError).
    { intros y. destruct x; try (intros H; discriminate H); apply Hx. }
    destruct (match x with
              | VUndefined | VNull => Returned []
              | _ => ToString x
              end) as [sx|y] eqn:Ex.
    + match goal with
      | |- context [match ?join false t with Returned _ => _ | Thrown _ => _ end] =>
          destruct (join false t) as [rt|y] eqn:Et
      end.
      * intros H. discriminate H.
      * intros H. injection H as <-. exact (IHt false y Et).
    + intros H. injection H as <-. now apply Hx'.
  - intros e. destruct (has_field (js "toString") fields);
      [|intros H; discriminate H].
    intros H. now injection H as <-.
Qed.

Lemma rendered_base64_throws (body : jsval) (e : exn) :
  rendered_base64 body = Thrown e -> e = TypeError.
Proof.
  unfold rendered_base64. destruct (first_base64 body) as [v|x] eqn:Hv.
  - apply ToString_throws.
  - intros H. injection H as <-. now apply first_base64_throws in Hv.
Qed.

(** [handleGenerateImage] in full, for every outcome of [fetch]. *)
Lemma generate_run (outcome : FetchOutcome) (st : AppState) :
  run (handleGenerateImage outcome) st
  = match outcome with
    | FetchRejected =>
        (Thrown NetworkFailure,
         mkWorld (mkAppState (generatedImage st) true (images st) (prompt st))
           [SetIsLoading true; FetchPost generation_url (prompt st)])
    | FetchResolved response =>
        if ok response
        then match json response with
             | None =>
                 (Thrown SyntaxError,
                  mkWorld (mkAppState (generatedImage st) true (images st) (prompt st))
                    [SetIsLoading true; FetchPost generation_url (prompt st)])
             | Some body =>
                 match rendered_base64 body with
                 | Thrown e =>
                     (Thrown e,
                      mkWorld (mkAppState (generatedImage st) true (images st)
                                 (prompt st))
                        [SetIsLoading true; FetchPost generation_url (prompt st)])
                 | Returned text =>
                     (Returned tt,
                      mkWorld (mkAppState (Some (data_uri_png ++ text)) false
                                 (images st) (prompt st))
                        [SetIsLoading true; FetchPost generation_url (prompt st);
                         SetGeneratedImage (data_uri_png ++ text);
                         SetIsLoading false])
                 end
             end
        else (Thrown (JsError non_200_message),
              mkWorld (mkAppState (generatedImage st) false (images st) (prompt st))
                [SetIsLoading true; FetchPost generation_url (prompt st);
                 SetIsLoading false])
    end.
Proof.
  destruct outcome as [|[o j]]; [reflexivity|].
  destruct o; [|reflexivity]. destruct j as [body|]; [|reflexivity].
  unfold run, handleGenerateImage, rendered_base64, first_base64. mrun.
  destruct (get_named body (js "artifacts")) as [artifacts|e]; [|reflexivity].
  destruct (get_index0 artifacts) as [first|e]; [|reflexivity].
  destruct (get_named first (js "base64")) as [v|e]; [|reflexivity].
  destruct (ToString v) as [text|e]; reflexivity.
Qed.

(** An object with an own [toString] as [base64] cannot be interpolated:
    the handler throws with the loading flag set and nothing stored. *)
Example generate_toString_key :
  run (handleGenerateImage (FetchResolved toString_key_response)) empty_state
  = (Thrown TypeError,
     mkWorld (mkAppState None true [] [])
       [SetIsLoading true; FetchPost generation_url []]).
Proof. vm_compute. reflexivity. Qed.

Lemma generate_first_artifact_run (fields first : list (jsstring * jsval))
    (others : list jsval) (b : jsstring) (st : AppState) :
  lookup_field (js "artifacts") fields = VArr (VObj first :: others) ->
  lookup_field (js "base64") first = VStr b ->
  run (handleGenerateImage (FetchResolved (mkResponse true (Some (VObj fields))))) st
  = (Returned tt,
     mkWorld (mkAppState (Some (data_uri_png ++ b)) false (images st) (prompt st))
       [SetIsLoading true; FetchPost generation_url (prompt st);
        SetGeneratedImage (data_uri_png ++ b); SetIsLoading false]).
Proof.
  intros Ha Hb. rewrite generate_run. simpl.
  unfold rendered_base64, first_base64. simpl. rewrite Ha. simpl.
  now rewrite Hb.
Qed.

(** X12: A success response whose first artifact carries a string [b] as
    [base64] makes the handler return with the image
    ["data:image/png;base64," + b] and the loading flag cleared; the
    artifacts after the first one play no part. *)
Theorem generate_uses_first_artifact (fields first : list (jsstring * jsval))
    (others : list jsval) (b : jsstring) (st : AppState) :
  lookup_field (js "artifacts") fields = VArr (VObj first :: others) ->
  lookup_field (js "base64") first = VStr b ->
  run (handleGenerateImage (FetchResolved (mkResponse true (Some (VObj fields))))) st
  = (Returned tt,
     mkWorld (mkAppState (Some (js "data:image/png;base64," ++ b)) false
                (images st) (prompt st))
       [SetIsLoading true; FetchPost generation_url (prompt st);
        SetGeneratedImage (js "data:image/png;base64," ++ b);
        SetIsLoading false]).
Proof.
  intros Ha Hb. rewrite generate_run. simpl.
  unfold rendered_base64, first_base64. simpl. rewrite Ha. simpl.
  now rewrite Hb.
Qed.

Lemma generate_uses_first_artifact_witness :
  generatedImage
    (app (snd (run (handleGenerateImage (FetchResolved one_artifact_response))
                 empty_state)))
  = Some (js "data:image/png;base64,aGVsbG8=").
Proof.
  unfold one_artifact_response.
  rewrite (generate_uses_first_artifact
             [(js "artifacts",
               VArr [VObj [(js "base64", VStr (js "aGVsbG8="));
                           (js "seed", VNum (js "7"));
                           (js "finishReason", VStr (js "SUCCESS"))]])]
             [(js "base64", VStr (js "aGVsbG8="));
              (js "seed", VNum (js "7"));
              (js "finishReason", VStr (js "SUCCESS"))]
             [] (js "aGVsbG8=") empty_state eq_refl eq_refl).
  reflexivity.
Defined.

(** X13: Whatever [fetch] does, the handler sends exactly one request, to the
    text-to-image URL with the prompt of the state, and leaves [images]
    and [prompt] alone. When it returns, the loading flag is cleared and
    the image held starts with ["data:image/png;base64,"]. When it throws,
    the image held is the one from before, and the loading flag is cleared
    only for the non-200 error: after a rejected [fetch], a body that is
    not JSON or a failed property read it stays set. *)
Theorem generate_footprint (outcome : FetchOutcome) (st : AppState) :
  let r := run (handleGenerateImage outcome) st in
  images (app (snd r)) = images st /\
  prompt (app (snd r)) = prompt st /\
  fetch_posts (trace (snd r))
  = [(js "https://api.stability.ai/v1/generation/stable-diffusion-v1-6/text-to-image",
      prompt st)] /\
  match fst r with
  | Returned _ =>
      isLoading (app (snd r)) = false /\
      exists payload,
        generatedImage (app (snd r)) = Some (js "data:image/png;base64," ++ payload)
  | Thrown e =>
      generatedImage (app (snd r)) = generatedImage st /\
      isLoading (app (snd r))
      = match e with JsError _ => false | _ => true end
  end.
Proof.
  intros r. subst r. rewrite generate_run.
  destruct outcome as [|[o j]]; [now repeat split|].
  destruct o; simpl; [|now repeat split].
  destruct j as [body|]; [|now repeat split].
  destruct (rendered_base64 body) as [text|e] eqn:Hv; simpl.
  - repeat split. now exists text.
  - apply rendered_base64_throws in Hv. subst e. now repeat split.
Qed.

(** ** Generating, editing the prompt, saving *)

(** [handleSaveImage] in full. *)
Lemma save_run (st : AppState) (answer : UploadResponse) :
  run (handleSaveImage answer) st
  = match generatedImage st with
    | None | Some [] => (Returned tt, mkWorld st [])
    | Some image =>
        match decode_image image with
        | Returned bytes =>
            (Returned tt,
             mkWorld st
               [Upload bucket (sanitizeFileName (prompt st)) bytes (js "image/png");
                match upload_error answer with
                | Some _ => ConsoleError (js "Error uploading image:")
                | None => ConsoleLog (js "Image uploaded successfully")
                end])
        | Thrown e => (Thrown e, mkWorld st [])
        end
    end.
Proof.
  unfold run, handleSaveImage. mrun.
  destruct (generatedImage st) as [[|c image]|]; try reflexivity.
  destruct (decode_image (c :: image)) as [bytes|e]; [|reflexivity].
  now destruct (upload_error answer).
Qed.

Lemma decode_image_png (b : jsstring) :
  decode_image (data_uri_png ++ b)
  = match atob b with
    | Returned binary => Returned (map (fun c => c mod 256) binary)
    | Thrown e => Thrown e
    end.
Proof. unfold decode_image. now rewrite strip_data_uri_png. Qed.

(** X14: Generating and saving fit together for every string [b] the service
    may send as [base64]: the prefix the generate flow puts in front is
    the prefix the save flow cuts off, so what is uploaded is [atob(b)],
    bytes for code units. The key is made from the prompt as it stands
    when saving, not from the one the image was generated with. When
    [atob(b)] throws, the save flow throws the same and uploads nothing. *)
Theorem generate_edit_save (fields first : list (jsstring * jsval))
    (others : list jsval) (b later_prompt : jsstring) (answer : UploadResponse)
    (st : AppState) :
  lookup_field (js "artifacts") fields = VArr (VObj first :: others) ->
  lookup_field (js "base64") first = VStr b ->
  let generated :=
    app (snd (run (handleGenerateImage
                     (FetchResolved (mkResponse true (Some (VObj fields))))) st)) in
  let edited := setPrompt later_prompt generated in
  run (handleSaveImage answer) edited
  = match atob b with
    | Returned binary =>
        (Returned tt,
         mkWorld edited
           [Upload (js "generate-image") (sanitizeFileName later_prompt)
              (map (fun c => c mod 256) binary) (js "image/png");
            match upload_error answer with
            | Some _ => ConsoleError (js "Error uploading image:")
            | None => ConsoleLog (js "Image uploaded successfully")
            end])
    | Thrown e => (Thrown e, mkWorld edited [])
    end.
Proof.
  intros Ha Hb generated edited. subst edited generated.
  rewrite (generate_first_artifact_run fields first others b st Ha Hb).
  rewrite save_run. cbn [snd app setPrompt generatedImage prompt].
  rewrite decode_image_png.
  destruct (data_uri_png ++ b) eqn:Hp; [discriminate|].
  now destruct (atob b).
Qed.

Lemma generate_edit_save_witness :
  uploads
    (trace (snd (run (handleSaveImage (mkUploadResponse None))
                   (setPrompt (js "A red fox!")
                      (app (snd (run (handleGenerateImage
                                        (FetchResolved one_artifact_response))
                                   (mkAppState None false [] (js "a cat")))))))))
  = [(js "a_red_fox", js "hello", js "image/png")].
Proof.
  unfold one_artifact_response.
  rewrite (generate_edit_save
             [(js "artifacts",
               VArr [VObj [(js "base64", VStr (js "aGVsbG8="));
                           (js "seed", VNum (js "7"));
                           (js "finishReason", VStr (js "SUCCESS"))]])]
             [(js "base64", VStr (js "aGVsbG8="));
              (js "seed", VNum (js "7"));
              (js "finishReason", VStr (js "SUCCESS"))]
             [] (js "aGVsbG8=") (js "A red fox!") (mkUploadResponse None)
             (mkAppState None false [] (js "a cat")) eq_refl eq_refl).
  vm_compute. reflexivity.
Defined.

(** X15: After a response whose first artifact has no [base64], the image
    held cannot be saved: whatever the prompt and whatever the storage
    would answer, the save flow throws [InvalidCharacterError] and
    uploads nothing. *)
Theorem save_after_missing_base64_throws (response : Response)
    (later_prompt : jsstring) (answer : UploadResponse) (st : AppState) :
  has_defect MissingBase64 response ->
  let generated :=
    app (snd (run (handleGenerateImage (FetchResolved response)) st)) in
  run (handleSaveImage answer) (setPrompt later_prompt generated)
  = (Thrown InvalidCharacterError,
     mkWorld (setPrompt later_prompt generated) []).
Proof.
  destruct response as [o j]. simpl.
  intros (-> & fields & first & others & -> & Ha & Hb).
  rewrite (generate_no_base64 fields first others st Ha Hb).
  rewrite save_run. cbn [snd app setPrompt generatedImage prompt].
  rewrite decode_image_png.
  destruct (data_uri_png ++ js "undefined") eqn:Hp; [discriminate|].
  reflexivity.
Qed.

Lemma save_after_missing_base64_throws_witness :
  fst (run (handleSaveImage (mkUploadResponse None))
         (setPrompt (js "a red fox")
            (app (snd (run (handleGenerateImage (FetchResolved no_base64_response))
                         empty_state)))))
  = Thrown InvalidCharacterError.
Proof.
  assert (H : has_defect MissingBase64 no_base64_response).
  { split; [reflexivity|].
    exists [(js "artifacts", VArr [VObj [(js "seed", VNum (js "1"))]])],
      [(js "seed", VNum (js "1"))], [].
    repeat split. }
  now rewrite (save_after_missing_base64_throws no_base64_response
                 (js "a red fox") (mkUploadResponse None) empty_state H).
Defined.

(** X16: With a prompt that has no ASCII letter and no digit, an image that
    decodes is uploaded under the empty key. *)
Theorem save_without_letters_uses_empty_key (st : AppState)
    (answer : UploadResponse) (c : N) (image : jsstring) (bytes : list N) :
  forallb (fun c => negb (is_alnum_i c)) (prompt st) = true ->
  generatedImage st = Some (c :: image) ->
  decode_image (c :: image) = Returned bytes ->
  uploads (trace (snd (run (handleSaveImage answer) st)))
  = [([], bytes, js "image/png")].
Proof.
  intros Hp Hg Hd. rewrite save_run, Hg, Hd.
  apply sanitize_nil_iff in Hp.
  cbn [snd trace uploads]. rewrite Hp.
  now destruct (upload_error answer).
Qed.

Lemma save_without_letters_uses_empty_key_witness :
  uploads
    (trace (snd (run (handleSaveImage (mkUploadResponse None))
                   (mkAppState (Some (js "data:image/png;base64,aGVsbG8=")) false []
                      [29483; 12398; 32117]))))
  = [([], js "hello", js "image/png")].
Proof.
  apply (save_without_letters_uses_empty_key
           (mkAppState (Some (js "data:image/png;base64,aGVsbG8=")) false []
              [29483; 12398; 32117])
           (mkUploadResponse None) 100 (js "ata:image/png;base64,aGVsbG8=")
           (js "hello"));
    reflexivity.
Defined.

(** ** What the component shows *)

(** X17: The save button is rendered exactly when [handleSaveImage] would get
    past its guard: where the button is missing a call does nothing at
    all, and where it is shown a call either returns after exactly one
    upload, keyed by the sanitized prompt and typed [image/png], or throws
    without any upload. *)
Theorem save_button_matches_guard (st : AppState) (answer : UploadResponse) :
  let r := run (handleSaveImage answer) st in
  (save_button (render st) = false <-> r = (Returned tt, mkWorld st [])) /\
  (save_button (render st) = true ->
   (fst r = Returned tt /\
    exists bytes,
      uploads (trace (snd r))
      = [(sanitizeFileName (prompt st), bytes, js "image/png")])
   \/ (exists e, fst r = Thrown e /\ uploads (trace (snd r)) = [])).
Proof.
  intros r. subst r. rewrite save_run. unfold render, truthy. simpl.
  destruct (generatedImage st) as [[|c image]|]; simpl.
  - split; [tauto|discriminate].
  - split.
    + split; [discriminate|].
      destruct (decode_image (c :: image)); intros H; discriminate.
    + intros _. destruct (decode_image (c :: image)) as [bytes|e]; simpl.
      * left. split; [reflexivity|]. exists bytes.
        now destruct (upload_error answer).
      * right. now exists e.
  - split; [tauto|discriminate].
Qed.

(** X18: After a refresh in which every request was answered, the grid has
    one tile for each element of the raw listing, in its order: tile [i]
    has key [i], the alternative text [Gallery i] and as source what the
    callback returned, so that the placeholder and every failed
    resolution show as a tile with an empty source. *)
Theorem grid_has_a_tile_per_listing_element (data : list FileObject)
    (sign : nat -> jsstring -> SignedUrlResponse) (arrivals : list nat)
    (st : AppState) :
  (forall i image, data !! i = Some image ->
                   is_placeholder image = false -> In i arrivals) ->
  let shown :=
    tiles (render (app (snd (run (fetchImages (mkListResponse (Some data) None)
                                    sign arrivals) st)))) in
  length shown = length data /\
  forall i image, data !! i = Some image ->
    shown !! i
    = Some (mkTile i
              (if is_placeholder image then []
               else match signed_error (sign i (name image)) with
                    | Some _ => []
                    | None =>
                        match signed_data (sign i (name image)) with
                        | Some d => signedUrl d
                        | None => []
                        end
                    end)
              (js "Gallery " ++ decimal i)).
Proof.
  intros Hall shown. subst shown. rewrite fetchImages_run. simpl.
  rewrite (all_answered_true data arrivals Hall). simpl.
  split; [now rewrite length_imap, gallery_urls_length|].
  intros i image Hi.
  rewrite list_lookup_imap, gallery_urls_lookup, Hi. reflexivity.
Qed.

Lemma grid_has_a_tile_per_listing_element_witness :
  let shown :=
    tiles (render (app (snd (run (fetchImages listing_with_placeholder sign_all
                                    [1%nat]) empty_state)))) in
  length shown = 2%nat /\
  shown !! 0%nat = Some (mkTile 0 [] (js "Gallery 0")) /\
  shown !! 1%nat = Some (mkTile 1 (js "https://cdn/fox") (js "Gallery 1")).
Proof.
  assert (Hall : forall i image,
             [mkFileObject placeholder; mkFileObject (js "fox")] !! i = Some image ->
             is_placeholder image = false -> In i [1%nat]).
  { intros [|[|i]] image Hi Hp; simpl in *; try tauto; try discriminate.
    injection Hi as <-. discriminate. }
  destruct (grid_has_a_tile_per_listing_element
              [mkFileObject placeholder; mkFileObject (js "fox")] sign_all
              [1%nat] empty_state Hall) as [Hlen Hent].
  split; [exact Hlen|]. split.
  - exact (Hent 0%nat (mkFileObject placeholder) eq_refl).
  - exact (Hent 1%nat (mkFileObject (js "fox")) eq_refl).
Defined.

(** X19: Once [handleGenerateImage] has thrown anything but the non-200
    error, the Generate button is rendered disabled, with the spinner,
    and it stays so through every gallery refresh, every save and every
    edit of the prompt: none of them touches the loading flag. *)
Theorem generate_button_stays_disabled (outcome : FetchOutcome) (st : AppState)
    (e : exn) :
  fst (run (handleGenerateImage outcome) st) = Thrown e ->
  (forall message, e <> JsError message) ->
  let failed := app (snd (run (handleGenerateImage outcome) st)) in
  generate_disabled (render failed) = true /\
  spinner (render failed) = true /\
  (forall listing sign arrivals,
     generate_disabled
       (render (app (snd (run (fetchImages listing sign arrivals) failed))))
     = true) /\
  (forall answer,
     generate_disabled (render (app (snd (run (handleSaveImage answer) failed))))
     = true) /\
  (forall value, generate_disabled (render (setPrompt value failed)) = true).
Proof.
  intros Hthrow Hne failed.
  assert (Hl : isLoading failed = true).
  { subst failed. revert Hthrow. rewrite generate_run.
    destruct outcome as [|[o j]]; [reflexivity|].
    destruct o; simpl.
    - destruct j as [body|]; [|reflexivity].
      destruct (rendered_base64 body); [discriminate|reflexivity].
    - intros H. injection H as <-. now destruct (Hne non_200_message). }
  split; [exact Hl|]. split; [exact Hl|]. split; [|split].
  - intros listing sign arrivals. unfold render. simpl.
    rewrite fetchImages_run.
    destruct (list_error listing) as [err|]; [exact Hl|].
    destruct (list_data listing) as [data|]; [|exact Hl].
    destruct (all_answered data arrivals); exact Hl.
  - intros answer. unfold render. simpl. rewrite save_run.
    destruct (generatedImage failed) as [[|c image]|]; try exact Hl.
    destruct (decode_image (c :: image)); exact Hl.
  - intros value. exact Hl.
Qed.

Lemma generate_button_stays_disabled_witness :
  generate_disabled
    (render (app (snd (run (handleGenerateImage FetchRejected) empty_state))))
  = true.
Proof.
  assert (Hne : forall message, NetworkFailure <> JsError message)
    by (intros message; discriminate).
  exact (proj1 (generate_button_stays_disabled FetchRejected empty_state
                  NetworkFailure eq_refl Hne)).
Defined.
